(** * Version management script of the SIP AI Agent: a shallow embedding

    The development follows [scripts/version.py].  Text is a list of 8-bit
    characters; Python's [re] functions used by the script are embedded as a
    small backtracking matcher over a regular-expression syntax tree; the file
    system, the environment, standard output and the external [git] tool are
    an explicit world threaded through a state-and-exception monad.

    The interpreter is CPython 3.11 or later with its defaults (conversions
    between [int] and [str] stop at 4300 digits) on a POSIX system (a line
    ends with a line feed, so that writing a text file translates nothing). *)

From Stdlib Require Import Ascii String DecimalString DecimalN.
From Stdlib Require Import NArith ZArith Lia Bool Arith List.
Import ListNotations.
Open Scope list_scope.

(** ** Text *)

Definition text := list ascii.

Definition txt (s : string) : text := list_ascii_of_string s.

Definition dquote : ascii := "034"%char.
Definition newline : ascii := "010"%char.
Definition backslash : ascii := "092"%char.
Definition carriage_return : ascii := "013"%char.

Definition text_eqb (a b : text) : bool :=
  if list_eq_dec ascii_dec a b then true else false.

(** ** Python's [re] module, as far as the script uses it *)

Module Re.

(** Character classes that occur in the script's patterns. *)
Inductive cclass :=
| Digit                   (* \d *)
| NotChar (c : ascii)     (* [^c] *)
| Dot.                    (* . : anything but a newline *)

Definition is_digit (a : ascii) : bool :=
  let n := nat_of_ascii a in (48 <=? n) && (n <=? 57).

Definition cclass_mem (k : cclass) (a : ascii) : bool :=
  match k with
  | Digit => is_digit a
  | NotChar c => negb (Ascii.eqb a c)
  | Dot => negb (Ascii.eqb a newline)
  end.

Inductive regex :=
| Empty
| Chr (c : ascii)
| Cls (k : cclass)
| Seq (r1 r2 : regex)
| Opt (r : regex)               (* r?  greedy *)
| Star (r : regex)              (* r*  greedy *)
| Group (n : nat) (r : regex)   (* (r) capturing group number n *)
| Bol                           (* ^ *)
| Eol.                          (* $ *)

(** [r+] is [r r*]. *)
Definition Plus (r : regex) : regex := Seq r (Star r).

(** A literal string. *)
Fixpoint Str (l : text) : regex :=
  match l with
  | [] => Empty
  | c :: l' => Seq (Chr c) (Str l')
  end.

(** The matcher's cursor: the offset in the subject, the text that is left,
    and the groups captured so far (latest first). *)
Record cursor := Cursor {
  pos : nat;
  rest : text;
  groups : list (nat * text)
}.

Definition advance (st : cursor) : cursor :=
  match rest st with
  | [] => st
  | _ :: t => Cursor (S (pos st)) t (groups st)
  end.

Definition orelse {R} (a : option R) (b : option R) : option R :=
  match a with
  | Some x => Some x
  | None => b
  end.

(** Greedy repetition: try one more iteration of the body first, fall back
    to the continuation.  An iteration that consumes nothing is abandoned,
    so [fuel] = one more than the length of the remaining text never runs
    out. *)
Fixpoint star_loop {R} (body : cursor -> (cursor -> option R) -> option R)
    (k : cursor -> option R) (fuel : nat) (st : cursor) : option R :=
  match fuel with
  | O => k st
  | S fuel' =>
      orelse
        (body st (fun st1 =>
           if pos st <? pos st1 then star_loop body k fuel' st1 else None))
        (k st)
  end.

(** Backtracking matcher in continuation-passing style: [k] is what remains
    of the pattern; the first success in priority order is returned. *)
Fixpoint bt {R} (r : regex) (st : cursor) (k : cursor -> option R)
  : option R :=
  match r with
  | Empty => k st
  | Chr c =>
      match rest st with
      | a :: _ => if Ascii.eqb a c then k (advance st) else None
      | [] => None
      end
  | Cls cl =>
      match rest st with
      | a :: _ => if cclass_mem cl a then k (advance st) else None
      | [] => None
      end
  | Seq r1 r2 => bt r1 st (fun st1 => bt r2 st1 k)
  | Opt r1 => orelse (bt r1 st k) (k st)
  | Star r1 =>
      star_loop (fun st0 k0 => bt r1 st0 k0) k (S (length (rest st))) st
  | Group n r1 =>
      bt r1 st (fun st1 =>
        k (Cursor (pos st1) (rest st1)
             ((n, firstn (pos st1 - pos st) (rest st)) :: groups st1)))
  | Bol => if pos st =? 0 then k st else None
  | Eol =>
      match rest st with
      | [] => k st
      | [a] => if Ascii.eqb a newline then k st else None
      | _ => None
      end
  end.

(** A match object: span and captured groups. *)
Record rmatch := RMatch {
  m_start : nat;
  m_end : nat;
  m_groups : list (nat * text)
}.

Fixpoint lookup_group (n : nat) (gs : list (nat * text)) : option text :=
  match gs with
  | [] => None
  | (i, v) :: gs' => if i =? n then Some v else lookup_group n gs'
  end.

(** [m.group(n)] for [n >= 1]; [None] when the group took no part. *)
Definition group (m : rmatch) (n : nat) : option text :=
  lookup_group n (m_groups m).

(** One attempt at offset [p], where [s] is the subject from [p] on.
    [must_advance] refuses an empty match (used by [sub] right after an
    empty match). *)
Definition match_here (r : regex) (p : nat) (s : text) (must_advance : bool)
  : option rmatch :=
  bt r (Cursor p s [])
    (fun st =>
       if must_advance && (pos st =? p) then None
       else Some (RMatch p (pos st) (groups st))).

(** [re.match(r, s)]. *)
Definition re_match (r : regex) (s : text) : option rmatch :=
  match_here r 0 s false.

(** Leftmost match at or after offset [p]. *)
Fixpoint search_from (r : regex) (p : nat) (s : text) (must_advance : bool)
  : option rmatch :=
  match match_here r p s must_advance with
  | Some m => Some m
  | None =>
      match s with
      | [] => None
      | _ :: s' => search_from r (S p) s' false
      end
  end.

(** [re.search(r, s)]. *)
Definition re_search (r : regex) (s : text) : option rmatch :=
  search_from r 0 s false.

(** *** Replacement templates of [re.sub]

    A replacement string without a backslash is used as it is.  Otherwise it
    is compiled first, and compiling can fail, before any match is looked
    for.  The script's pattern has no capturing group, so the only group a
    template may refer to is group 0, the whole match (group names are read
    as CPython 3.12 and later read them: decimal digits only). *)

Inductive titem :=
| TChar (c : ascii)
| TWhole.              (* \g<0> *)

Definition is_octdigit (a : ascii) : bool :=
  let n := nat_of_ascii a in (48 <=? n) && (n <=? 55).

Definition is_ascii_letter (a : ascii) : bool :=
  let n := nat_of_ascii a in
  ((65 <=? n) && (n <=? 90)) || ((97 <=? n) && (n <=? 122)).

Definition digit_val (a : ascii) : nat := nat_of_ascii a - 48.

(** The escapes \a \b \f \n \r \t \v and the doubled backslash. *)
Definition escape_char (e : ascii) : option ascii :=
  if Ascii.eqb e "a" then Some "007"%char
  else if Ascii.eqb e "b" then Some "008"%char
  else if Ascii.eqb e "f" then Some "012"%char
  else if Ascii.eqb e "n" then Some "010"%char
  else if Ascii.eqb e "r" then Some "013"%char
  else if Ascii.eqb e "t" then Some "009"%char
  else if Ascii.eqb e "v" then Some "011"%char
  else if Ascii.eqb e backslash then Some backslash
  else None.

(** The text up to the first [stop] and the text after it. *)
Fixpoint getuntil (stop : ascii) (s : text) : option (text * text) :=
  match s with
  | [] => None
  | c :: s' =>
      if Ascii.eqb c stop then Some ([], s')
      else match getuntil stop s' with
           | Some (name, r) => Some (c :: name, r)
           | None => None
           end
  end.

Definition tcons (i : titem) (t : option (list titem))
  : option (list titem) :=
  match t with
  | Some l => Some (i :: l)
  | None => None
  end.

(** [None] is the error raised for a bad template. *)
Fixpoint parse_template (fuel : nat) (s : text) : option (list titem) :=
  match fuel with
  | O => None
  | S f =>
    match s with
    | [] => Some []
    | c :: s1 =>
      if negb (Ascii.eqb c backslash) then tcons (TChar c) (parse_template f s1)
      else
        match s1 with
        | [] => None                            (* bad escape (end of pattern) *)
        | e :: s2 =>
          if Ascii.eqb e "g" then
            match s2 with
            | lt :: s3 =>
                if Ascii.eqb lt "<" then
                  match getuntil ">" s3 with
                  | Some (name, s4) =>
                      (* only group 0 exists *)
                      if negb (text_eqb name [])
                         && forallb (fun a => Ascii.eqb a "0") name
                      then tcons TWhole (parse_template f s4)
                      else None
                  | None => None                (* missing > *)
                  end
                else None                       (* missing < *)
            | [] => None
            end
          else if Ascii.eqb e "0" then
            (* octal escape of up to three digits *)
            match s2 with
            | d1 :: s3 =>
                if is_octdigit d1 then
                  match s3 with
                  | d2 :: s4 =>
                      if is_octdigit d2 then
                        tcons (TChar (ascii_of_nat (digit_val d1 * 8 + digit_val d2)))
                              (parse_template f s4)
                      else tcons (TChar (ascii_of_nat (digit_val d1)))
                                 (parse_template f s3)
                  | [] => tcons (TChar (ascii_of_nat (digit_val d1)))
                                (parse_template f s3)
                  end
                else tcons (TChar zero) (parse_template f s2)
            | [] => tcons (TChar zero) (parse_template f s2)
            end
          else if is_digit e then
            (* three octal digits are a character; anything else refers to
               a group of number 1 or more, and there is none *)
            match s2 with
            | d1 :: d2 :: s4 =>
                if is_octdigit e && is_octdigit d1 && is_octdigit d2 then
                  let c := digit_val e * 64 + digit_val d1 * 8 + digit_val d2 in
                  if c <=? 255 then tcons (TChar (ascii_of_nat c)) (parse_template f s4)
                  else None                     (* octal escape out of range *)
                else None                       (* invalid group reference *)
            | _ => None                         (* invalid group reference *)
            end
          else
            match escape_char e with
            | Some a => tcons (TChar a) (parse_template f s2)
            | None =>
                if is_ascii_letter e then None  (* bad escape *)
                else tcons (TChar backslash)
                       (tcons (TChar e) (parse_template f s2))
            end
        end
    end
  end.

Definition literal_template (s : text) : list titem := map TChar s.

Definition compile_template (repl : text) : option (list titem) :=
  if existsb (Ascii.eqb backslash) repl
  then parse_template (S (length repl)) repl
  else Some (literal_template repl).

Fixpoint expand (tpl : list titem) (whole : text) : text :=
  match tpl with
  | [] => []
  | TChar c :: tpl' => c :: expand tpl' whole
  | TWhole :: tpl' => whole ++ expand tpl' whole
  end.

(** The loop of [re.sub]: find the next match at or after offset [p], copy
    the text before it, append the expansion, go on behind the match.  After
    an empty match the next one must advance.  Every second round at least
    consumes a character, so [fuel] = twice the length plus two is enough. *)
Fixpoint sub_loop (r : regex) (tpl : list titem) (fuel : nat) (p : nat)
    (s : text) (must_advance : bool) : text :=
  match fuel with
  | O => s
  | S f =>
      match search_from r p s must_advance with
      | None => s
      | Some m =>
          let before := firstn (m_start m - p) s in
          let whole := firstn (m_end m - m_start m) (skipn (m_start m - p) s) in
          before ++ expand tpl whole
            ++ sub_loop r tpl f (m_end m) (skipn (m_end m - p) s)
                 (m_end m =? m_start m)
      end
  end.

(** [re.sub(r, repl, s)]; [None] when [repl] is a bad template. *)
Definition re_sub (r : regex) (repl : text) (s : text) : option text :=
  match compile_template repl with
  | None => None
  | Some tpl => Some (sub_loop r tpl (2 * length s + 2) 0 s false)
  end.

End Re.

(** ** Exceptions *)

Inductive exn :=
| SystemExit (code : Z)
| ValueError (msg : text)
| CalledProcessError (cmd : list text) (returncode : Z)
| FileNotFoundError
| UnicodeDecodeError
| TemplateError.   (* re.error or IndexError of a bad replacement template *)

(** ** Python builtins *)

Module Py.

(** The number that a string of decimal digits denotes. *)
Definition int_of_digits (s : text) : N :=
  fold_left (fun acc c => (acc * 10 + N.of_nat (Re.digit_val c))%N) s 0%N.

(** The decimal digits of a non-negative integer. *)
Definition str_of_N (n : N) : text :=
  txt (NilZero.string_of_uint (N.to_uint n)).

(** [sys.get_int_max_str_digits()]: the most digits a conversion between
    [int] and [str] accepts. *)
Definition int_max_str_digits : nat := 4300.

Definition limit_head : text :=
  txt "Exceeds the limit (4300 digits) for integer string conversion".

Definition limit_tail : text :=
  txt "; use sys.set_int_max_str_digits() to increase the limit".

(** [int(s)] on a string of decimal digits: every digit counts for the
    limit, leading zeros too. *)
Definition int (s : text) : exn + N :=
  if length s <=? int_max_str_digits then inr (int_of_digits s)
  else inl (ValueError (limit_head ++ txt ": value has "
                          ++ str_of_N (N.of_nat (length s))
                          ++ txt " digits" ++ limit_tail)).

(** [str(n)], and [n] in an f-string, for a non-negative integer. *)
Definition str (n : N) : exn + text :=
  if length (str_of_N n) <=? int_max_str_digits then inr (str_of_N n)
  else inl (ValueError (limit_head ++ limit_tail)).

(** [c.isspace()] on the 8-bit characters. *)
Definition isspace (a : ascii) : bool :=
  let n := nat_of_ascii a in
  ((9 <=? n) && (n <=? 13)) || ((28 <=? n) && (n <=? 32))
  || (n =? 133) || (n =? 160).

(** [s.strip()]. *)
Fixpoint lstrip (s : text) : text :=
  match s with
  | c :: s' => if isspace c then lstrip s' else s
  | [] => []
  end.

Definition strip (s : text) : text := rev (lstrip (rev (lstrip s))).

(** Truth value of a string and of an optional string ([None] or [str]). *)
Definition truthy (s : text) : bool :=
  match s with [] => false | _ => true end.

Definition truthy_opt (o : option text) : bool :=
  match o with Some s => truthy s | None => false end.

(** [o or d], for an optional string [o]. *)
Definition or_default (o : option text) (d : text) : text :=
  match o with
  | Some s => if truthy s then s else d
  | None => d
  end.

End Py.


(** ** The world the script runs in *)

#[local] Set Warnings "-register-all".

(** The values [get_docker_images_info] builds: strings and dicts, the
    latter with their keys in insertion order. *)
Inductive pyval :=
| VStr (s : text)
| VDict (items : list (text * pyval)).

(** What [print] wrote.  [ErrLine prefix cmd rc] is the line
    [prefix] followed by the text of [CalledProcessError(rc, cmd)];
    [JsonLine v] is [json.dumps(v, indent=2)]. *)
Inductive outline :=
| Line (t : text)
| ErrLine (prefix : text) (cmd : list text) (rc : Z)
| JsonLine (v : pyval).

(** The external programs [subprocess.run] can start: a command line and
    the tool's state give a return code, the captured output and the new
    state. *)
Class Subprocess (G : Type) := {
  run : list text -> G -> (Z * text) * G
}.

(** What a file holds, seen through the encoding of the locale: the
    characters its bytes decode to, or bytes that are no text in that
    encoding. *)
Inductive file :=
| Chars (content : text)
| Undecodable.

Record world (G : Type) := World {
  manifest : option file;           (* pyproject.toml, when it exists *)
  environ : list (text * text);     (* os.environ *)
  tool : G;                         (* state behind the external tool *)
  stdout : list outline;            (* lines printed so far *)
  calls : list (list text * Z)      (* commands run so far, with return codes *)
}.

Arguments World {G}.
Arguments manifest {G}.
Arguments environ {G}.
Arguments tool {G}.
Arguments stdout {G}.
Arguments calls {G}.

(** State and exceptions. *)
Definition M (G A : Type) : Type := world G -> (exn + A) * world G.

Definition ret {G A} (a : A) : M G A := fun w => (inr a, w).

Definition bind {G A B} (c : M G A) (k : A -> M G B) : M G B :=
  fun w =>
    match c w with
    | (inr a, w') => k a w'
    | (inl e, w') => (inl e, w')
    end.

Definition raise {G A} (e : exn) : M G A := fun w => (inl e, w).

Definition lift {G A} (r : exn + A) : M G A := fun w => (r, w).

(** [try: body  except subprocess.CalledProcessError as e: handler]. *)
Definition try_except_CalledProcessError {G A} (body : M G A)
    (handler : list text -> Z -> M G A) : M G A :=
  fun w =>
    match body w with
    | (inl (CalledProcessError cmd rc), w') => handler cmd rc w'
    | other => other
    end.

Declare Scope py_scope.
Delimit Scope py_scope with py.
Notation "x <- c ;; k" := (bind c (fun x => k))
  (at level 100, c at next level, right associativity) : py_scope.
Notation "c ;; k" := (bind c (fun _ => k))
  (at level 100, right associativity) : py_scope.
Open Scope py_scope.

Definition print {G} (l : outline) : M G unit :=
  fun w => (inr tt,
            World (manifest w) (environ w) (tool w) (stdout w ++ [l]) (calls w)).

Definition path_exists {G} : M G bool :=
  fun w => (inr (match manifest w with Some _ => true | None => false end), w).

(** Reading in text mode turns every line end into a line feed: a
    carriage return becomes a line feed, and the line feed that follows a
    carriage return is dropped.  [after_cr] says that the character just
    read was a carriage return. *)
Fixpoint translate_newlines (after_cr : bool) (s : text) : text :=
  match s with
  | [] => []
  | c :: s' =>
      if Ascii.eqb c carriage_return then newline :: translate_newlines true s'
      else if Ascii.eqb c newline then
        if after_cr then translate_newlines false s'
        else newline :: translate_newlines false s'
      else c :: translate_newlines false s'
  end.

Definition universal_newlines (s : text) : text := translate_newlines false s.

(** [open(path, "r")] and [f.read()]. *)
Definition read_file {G} : M G text :=
  fun w =>
    match manifest w with
    | Some (Chars content) => (inr (universal_newlines content), w)
    | Some Undecodable => (inl UnicodeDecodeError, w)
    | None => (inl FileNotFoundError, w)
    end.

(** [open(path, "w")] and [f.write(content)]: the characters are stored as
    they are. *)
Definition write_file {G} (content : text) : M G unit :=
  fun w => (inr tt,
            World (Some (Chars content)) (environ w) (tool w) (stdout w)
                  (calls w)).

(** [os.environ.get(key, default)]. *)
Fixpoint environ_get (env : list (text * text)) (key default : text) : text :=
  match env with
  | [] => default
  | (k, v) :: env' => if text_eqb k key then v else environ_get env' key default
  end.

(** [subprocess.run(cmd, check=True)]: the call is logged; a return code
    other than zero raises [CalledProcessError]. *)
Definition subprocess_run {G} `{Subprocess G} (cmd : list text)
  : M G (Z * text) :=
  fun w =>
    let '((rc, out), g') := run cmd (tool w) in
    let w' := World (manifest w) (environ w) g' (stdout w)
                    (calls w ++ [(cmd, rc)]) in
    if (rc =? 0)%Z then (inr (rc, out), w')
    else (inl (CalledProcessError cmd rc), w').

(** ** The script *)

(** The three patterns of the script. *)

(* version = Q([^Q]+)Q   where Q stands for the double quote *)
Definition version_capture_re : Re.regex :=
  Re.Seq (Re.Str (txt "version = "))
    (Re.Seq (Re.Chr dquote)
       (Re.Seq (Re.Group 1 (Re.Plus (Re.Cls (Re.NotChar dquote))))
          (Re.Chr dquote))).

(* version = Q[^Q]+Q *)
Definition version_re : Re.regex :=
  Re.Seq (Re.Str (txt "version = "))
    (Re.Seq (Re.Chr dquote)
       (Re.Seq (Re.Plus (Re.Cls (Re.NotChar dquote)))
          (Re.Chr dquote))).

(* ^(\d+)\.(\d+)\.(\d+)(?:-A)?$   where A stands for: any characters but
   newlines, as many as possible *)
Definition semver_re : Re.regex :=
  Re.Seq Re.Bol
    (Re.Seq (Re.Group 1 (Re.Plus (Re.Cls Re.Digit)))
    (Re.Seq (Re.Chr ".")
    (Re.Seq (Re.Group 2 (Re.Plus (Re.Cls Re.Digit)))
    (Re.Seq (Re.Chr ".")
    (Re.Seq (Re.Group 3 (Re.Plus (Re.Cls Re.Digit)))
    (Re.Seq (Re.Opt (Re.Seq (Re.Chr "-") (Re.Star (Re.Cls Re.Dot))))
       Re.Eol)))))).

(** [match.group(n)] as a string.  Every group of the patterns above takes
    part in every match, so the empty default is never used. *)
Definition group_str (m : Re.rmatch) (n : nat) : text :=
  match Re.group m n with
  | Some v => v
  | None => []
  end.

Definition get_current_version {G} : M G text :=
  e <- path_exists ;;
  if negb e then ret (txt "0.1.0")
  else
    content <- read_file ;;
    match Re.re_search version_capture_re content with
    | Some m => ret (group_str m 1)
    | None => ret (txt "0.1.0")
    end.

(** The replacement text: version = Q{new_version}Q. *)
Definition version_line (v : text) : text :=
  txt "version = " ++ dquote :: v ++ [dquote].

Definition update_version_file {G} (new_version : text) : M G unit :=
  e <- path_exists ;;
  if negb e then
    print (Line (txt "Warning: pyproject.toml not found, skipping version update"))
  else
    content <- read_file ;;
    updated_content <-
      match Re.re_sub version_re (version_line new_version) content with
      | Some t => ret t
      | None => raise TemplateError
      end ;;
    write_file updated_content ;;
    print (Line (txt "Updated version in pyproject.toml to " ++ new_version)).

Definition parse_version (version : text) : exn + (N * N * N) :=
  match Re.re_match semver_re version with
  | None => inl (ValueError (txt "Invalid version format: " ++ version))
  | Some m =>
      match Py.int (group_str m 1) with
      | inl e => inl e
      | inr major =>
          match Py.int (group_str m 2) with
          | inl e => inl e
          | inr minor =>
              match Py.int (group_str m 3) with
              | inl e => inl e
              | inr patch => inr (major, minor, patch)
              end
          end
      end
  end.

(** An f-string: the pieces are formatted from left to right and joined;
    the first piece that raises ends the formatting. *)
Fixpoint fstring (pieces : list (exn + text)) : exn + text :=
  match pieces with
  | [] => inr []
  | inl e :: _ => inl e
  | inr t :: pieces' =>
      match fstring pieces' with
      | inl e => inl e
      | inr r => inr (t ++ r)
      end
  end.

Definition bump_version (current_version bump_type : text) : exn + text :=
  match parse_version current_version with
  | inl e => inl e
  | inr (major, minor, patch) =>
      if text_eqb bump_type (txt "major") then
        fstring [Py.str (major + 1); inr (txt ".0.0")]
      else if text_eqb bump_type (txt "minor") then
        fstring [Py.str major; inr (txt "."); Py.str (minor + 1);
                 inr (txt ".0")]
      else if text_eqb bump_type (txt "patch") then
        fstring [Py.str major; inr (txt "."); Py.str minor; inr (txt ".");
                 Py.str (patch + 1)]
      else inl (ValueError (txt "Invalid bump type: " ++ bump_type))
  end.

Definition tag_list_cmd (tag_name : text) : list text :=
  [txt "git"; txt "tag"; txt "-l"; tag_name].

Definition tag_create_cmd (tag_name tag_message : text) : list text :=
  [txt "git"; txt "tag"; txt "-a"; tag_name; txt "-m"; tag_message].

Definition tag_push_cmd (tag_name : text) : list text :=
  [txt "git"; txt "push"; txt "origin"; tag_name].

Definition create_git_tag {G} `{Subprocess G} (version : text)
    (message : option text) : M G unit :=
  let tag_name := txt "v" ++ version in
  let tag_message :=
    Py.or_default message (txt "Release version " ++ version) in
  try_except_CalledProcessError
    (result <- subprocess_run (tag_list_cmd tag_name) ;;
     if Py.truthy (Py.strip (snd result)) then
       print (Line (txt "Tag " ++ tag_name ++ txt " already exists"))
     else
       subprocess_run (tag_create_cmd tag_name tag_message) ;;
       print (Line (txt "Created tag " ++ tag_name)))
    (fun cmd rc =>
       print (ErrLine (txt "Error creating git tag: ") cmd rc) ;;
       raise (SystemExit 1)).

Definition push_tag {G} `{Subprocess G} (version : text) : M G unit :=
  let tag_name := txt "v" ++ version in
  try_except_CalledProcessError
    (subprocess_run (tag_push_cmd tag_name) ;;
     print (Line (txt "Pushed tag " ++ tag_name ++ txt " to remote")))
    (fun cmd rc =>
       print (ErrLine (txt "Error pushing tag: ") cmd rc) ;;
       raise (SystemExit 1)).

Definition get_docker_images_info {G} (version : text) : M G pyval :=
  fun w =>
    let registry := txt "ghcr.io" in
    let repo_name :=
      environ_get (environ w) (txt "GITHUB_REPOSITORY") (txt "sip-ai-agent") in
    (inr (VDict
       [(txt "registry", VStr registry);
        (txt "repository", VStr repo_name);
        (txt "version", VStr version);
        (txt "images", VDict
           [(txt "sip_agent",
               VStr (registry ++ txt "/" ++ repo_name ++ txt ":" ++ version));
            (txt "sip_agent_latest",
               VStr (registry ++ txt "/" ++ repo_name ++ txt ":latest"));
            (txt "web_ui",
               VStr (registry ++ txt "/" ++ repo_name ++ txt "-web:" ++ version));
            (txt "web_ui_latest",
               VStr (registry ++ txt "/" ++ repo_name ++ txt "-web:latest"))])]),
     w).

(** The command line as [argparse] hands it over. *)
Inductive action := Current | Bump | Tag | Info.

Record args := Args {
  a_action : action;
  a_type : option text;
  a_version : option text;
  a_message : option text;
  a_push : bool
}.


Definition main {G} `{Subprocess G} (a : args) : M G unit :=
  match a_action a with
  | Current =>
      version <- get_current_version ;;
      print (Line (txt "Current version: " ++ version))
  | Bump =>
      match a_type a with
      | Some bump_type =>
          if Py.truthy bump_type then
            current_version <- get_current_version ;;
            new_version <- lift (bump_version current_version bump_type) ;;
            update_version_file new_version ;;
            print (Line (txt "Bumped version from " ++ current_version
                           ++ txt " to " ++ new_version))
          else
            print (Line (txt "Error: --type is required for bump action")) ;;
            raise (SystemExit 1)
      | None =>
          print (Line (txt "Error: --type is required for bump action")) ;;
          raise (SystemExit 1)
      end
  | Tag =>
      version <-
        (if Py.truthy_opt (a_version a)
         then ret (match a_version a with Some v => v | None => [] end)
         else get_current_version) ;;
      create_git_tag version (a_message a) ;;
      if a_push a then push_tag version else ret tt
  | Info =>
      current_version <- get_current_version ;;
      docker_info <- get_docker_images_info current_version ;;
      print (Line (txt "Docker Images Information:")) ;;
      print (JsonLine docker_info)
  end.


(** ** Vocabulary of the statements *)

(** The longest prefix of [s] whose characters satisfy [f], and the rest. *)
Fixpoint span (f : ascii -> bool) (s : text) : text * text :=
  match s with
  | a :: t =>
      if f a then let (r, tl) := span f t in (a :: r, tl) else ([], s)
  | [] => ([], [])
  end.

(** [strip_prefix l s] is what follows [l] at the head of [s]. *)
Fixpoint strip_prefix (l s : text) : option text :=
  match l, s with
  | [], _ => Some s
  | c :: l', a :: s' => if Ascii.eqb a c then strip_prefix l' s' else None
  | _ :: _, [] => None
  end.

(** [s] begins with a version entry of the manifest: the words version = ,
    a double quote, a non-empty value without double quote, a double
    quote. *)
Definition starts_version_entry (s : text) : Prop :=
  exists v tl, s = version_line v ++ tl /\ v <> [] /\ ~ In dquote v.

(** No version entry begins anywhere in [s]. *)
Definition no_version_entry (s : text) : Prop :=
  forall pre s', s = pre ++ s' -> ~ starts_version_entry s'.

(** [content] is [pre], then the entry with value [v], then [tl], and no
    entry begins earlier. *)
Definition first_version_entry (content pre v tl : text) : Prop :=
  content = pre ++ version_line v ++ tl /\ v <> [] /\ ~ In dquote v /\
  forall p1 p2, pre = p1 ++ p2 -> p2 <> [] ->
    ~ starts_version_entry (p2 ++ version_line v ++ tl).

(** [ReplacedAll new s s']: [s'] is [s] with every version entry, taken
    from left to right without overlap, replaced by the entry of value
    [new], and with every other character as it was. *)
Inductive ReplacedAll (new : text) : text -> text -> Prop :=
| RA_done : forall s, no_version_entry s -> ReplacedAll new s s
| RA_step : forall content pre v tl tl',
    first_version_entry content pre v tl ->
    ReplacedAll new tl tl' ->
    ReplacedAll new content (pre ++ version_line new ++ tl').

(** A non-empty string of decimal digits. *)
Definition digits (d : text) : Prop :=
  d <> [] /\ forallb Re.is_digit d = true.

(** What the semantic-version pattern accepts behind the three numbers:
    nothing, or a hyphen and any characters but newlines. *)
Definition semver_suffix (sfx : text) : Prop :=
  sfx = [] \/ exists t, sfx = "-"%char :: t /\ ~ In newline t.

(** The texts the semantic-version pattern matches.  The end-of-string
    anchor of Python also matches in front of one final newline. *)
Definition semver_text (s : text) (d1 d2 d3 : text) : Prop :=
  exists sfx nl,
    s = d1 ++ "."%char :: d2 ++ "."%char :: d3 ++ sfx ++ nl /\
    digits d1 /\ digits d2 /\ digits d3 /\ semver_suffix sfx /\
    (nl = [] \/ nl = [newline]).

(** The canonical text of a version: major.minor.patch. *)
Definition format_version (v : N * N * N) : text :=
  let '(major, minor, patch) := v in
  Py.str_of_N major ++ txt "." ++ Py.str_of_N minor ++ txt "."
    ++ Py.str_of_N patch.

(** Lookup in a dict. *)
Fixpoint dict_get (items : list (text * pyval)) (key : text) : option pyval :=
  match items with
  | [] => None
  | (k, v) :: items' => if text_eqb k key then Some v else dict_get items' key
  end.

(** The commands that create a tag, and how many of them a log holds. *)
Definition is_tag_create (cmd : list text) : bool :=
  match cmd with
  | c0 :: c1 :: c2 :: _ =>
      text_eqb c0 (txt "git") && text_eqb c1 (txt "tag") && text_eqb c2 (txt "-a")
  | _ => false
  end.

Definition is_tag_push (cmd : list text) : bool :=
  match cmd with
  | c0 :: c1 :: _ => text_eqb c0 (txt "git") && text_eqb c1 (txt "push")
  | _ => false
  end.

Definition count_creates (log : list (list text * Z)) : nat :=
  length (filter (fun c => is_tag_create (fst c)) log).



(** The version [get_current_version] reads in a world. *)
Definition manifest_version {G} (w : world G) : text :=
  match fst (get_current_version w) with
  | inr v => v
  | inl _ => []
  end.

(** What an external tool has to guarantee for tags to stay: once the
    creation of a tag has succeeded, a listing of that name that succeeds
    prints something. *)
Definition tool_keeps_tags (G : Type) `{Subprocess G} : Prop :=
  forall g name msg out g1,
    run (tag_create_cmd name msg) g = ((0%Z, out), g1) ->
    forall out' g2,
      run (tag_list_cmd name) g1 = ((0%Z, out'), g2) ->
      Py.truthy (Py.strip out') = true.

(** Direct readings of the patterns, proved equal to the matcher below. *)

Definition not_dquote (a : ascii) : bool := negb (Ascii.eqb a dquote).

Definition not_newline (a : ascii) : bool := negb (Ascii.eqb a newline).

(** The value of the version entry at the head of [s], and what follows
    the entry. *)
Definition version_entry_at (s : text) : option (text * text) :=
  match strip_prefix (txt "version = ") s with
  | Some (q :: s1) =>
      if Ascii.eqb q dquote then
        match span not_dquote s1 with
        | ((_ :: _) as v, _ :: tl) => Some (v, tl)
        | _ => None
        end
      else None
  | _ => None
  end.

(** The end of the string, or one newline in front of it. *)
Definition at_eol (s : text) : bool :=
  match s with
  | [] => true
  | [a] => Ascii.eqb a newline
  | _ => false
  end.

(** The offset at which the optional suffix and the end anchor of the
    semantic-version pattern succeed from offset [p] on [s]. *)
Definition semver_tail (p : nat) (s : text) : option nat :=
  Re.orelse
    (match s with
     | a :: t =>
         if Ascii.eqb a "-" then
           let (r, tl) := span not_newline t in
           if at_eol tl then Some (S p + length r) else None
         else None
     | [] => None
     end)
    (if at_eol s then Some p else None).

(** The three numbers of a semantic version at the head of [s], and the
    offset where the match ends. *)
Definition semver_at (s : text) : option (text * text * text * nat) :=
  match span Re.is_digit s with
  | ((_ :: _) as d1, c1 :: s1) =>
      if Ascii.eqb c1 "." then
        match span Re.is_digit s1 with
        | ((_ :: _) as d2, c2 :: s2) =>
            if Ascii.eqb c2 "." then
              match span Re.is_digit s2 with
              | ((_ :: _) as d3, s3) =>
                  match semver_tail (length d1 + 1 + length d2 + 1 + length d3) s3 with
                  | Some e => Some (d1, d2, d3, e)
                  | None => None
                  end
              | _ => None
              end
            else None
        | _ => None
        end
      else None
  | _ => None
  end.

(** The leftmost version entry of [s]: what precedes it, its value, and
    what follows it. *)
Fixpoint find_entry (s : text) : option (text * text * text) :=
  match version_entry_at s with
  | Some (v, tl) => Some ([], v, tl)
  | None =>
      match s with
      | [] => None
      | a :: s' =>
          match find_entry s' with
          | Some (pre, v, tl) => Some (a :: pre, v, tl)
          | None => None
          end
      end
  end.

(** A continuation rejects a class when it fails on every text that begins
    with a character of the class. *)
Definition rejects {R} (cl : Re.cclass) (k : Re.cursor -> option R) : Prop :=
  forall p a t g, Re.cclass_mem cl a = true -> k (Re.Cursor p (a :: t) g) = None.

(** The order of versions: by major, then minor, then patch. *)
Definition version_lt (a b : N * N * N) : Prop :=
  let '(a1, a2, a3) := a in
  let '(b1, b2, b3) := b in
  (a1 < b1)%N \/ (a1 = b1 /\ (a2 < b2)%N) \/
  (a1 = b1 /\ a2 = b2 /\ (a3 < b3)%N).

(** The three values of --type. *)
Definition bump_kind (kind : text) : Prop :=
  kind = txt "major" \/ kind = txt "minor" \/ kind = txt "patch".

(** [n] is written with no more decimal digits than a conversion accepts. *)
Definition fits (n : N) : Prop :=
  length (Py.str_of_N n) <= Py.int_max_str_digits.

(** The number a bump of the given kind increments, incremented, and the
    version the bump then stands for. *)
Definition bumped_number (t : N * N * N) (kind : text) : N :=
  let '(major, minor, patch) := t in
  if text_eqb kind (txt "major") then (major + 1)%N
  else if text_eqb kind (txt "minor") then (minor + 1)%N
  else (patch + 1)%N.

Definition bumped (t : N * N * N) (kind : text) : N * N * N :=
  let '(major, minor, patch) := t in
  if text_eqb kind (txt "major") then ((major + 1)%N, 0%N, 0%N)
  else if text_eqb kind (txt "minor") then (major, (minor + 1)%N, 0%N)
  else (major, minor, (patch + 1)%N).

(** The environment as a dict: [key] is not set, and [key] is set to
    [value] (the first pair of that key is the one that counts). *)
Definition env_unset (env : list (text * text)) (key : text) : Prop :=
  forall value, ~ In (key, value) env.

Definition env_binds (env : list (text * text)) (key value : text) : Prop :=
  exists before after,
    env = before ++ (key, value) :: after /\ env_unset before key.



(** ** A small model of git, to run the script on concrete worlds

    The state is the list of tags of the repository, or [None] outside a
    repository, where every command exits with 128. *)

Module ToyGit.

Definition state := option (list text).

Definition has_tag (name : text) (tags : list text) : bool :=
  existsb (text_eqb name) tags.

Definition exec (cmd : list text) (g : state) : (Z * text) * state :=
  match g with
  | None => ((128%Z, []), None)
  | Some tags =>
      match cmd with
      | [c0; c1; c2; name] =>
          if text_eqb c0 (txt "git") && text_eqb c1 (txt "tag")
             && text_eqb c2 (txt "-l")
          then ((0%Z, if has_tag name tags then name ++ [newline] else []), g)
          else if text_eqb c0 (txt "git") && text_eqb c1 (txt "push")
                  && text_eqb c2 (txt "origin")
          then ((if has_tag name tags then 0%Z else 1%Z, []), g)
          else ((1%Z, []), g)
      | [c0; c1; c2; name; c4; msg] =>
          if text_eqb c0 (txt "git") && text_eqb c1 (txt "tag")
             && text_eqb c2 (txt "-a") && text_eqb c4 (txt "-m")
          then
            if has_tag name tags || negb (Py.truthy (Py.strip name))
            then ((128%Z, []), g)
            else ((0%Z, []), Some (name :: tags))
          else ((1%Z, []), g)
      | _ => ((1%Z, []), g)
      end
  end.

#[global] Instance subprocess : Subprocess state := {| run := exec |}.

(** The world with the manifest of characters [m], an empty environment
    and nothing printed or run so far. *)
Definition world0 (m : option text) (g : state) : world state :=
  World (option_map Chars m) [] g [] [].

End ToyGit.

(** * Properties *)

(** ** Text and list facts *)

Lemma text_eqb_eq (a b : text) : text_eqb a b = true <-> a = b.
Proof.
  unfold text_eqb. destruct (list_eq_dec ascii_dec a b); split; congruence.
Qed.

Lemma text_eqb_refl (a : text) : text_eqb a a = true.
Proof. apply text_eqb_eq. reflexivity. Qed.

Lemma text_eqb_neq (a b : text) : a <> b -> text_eqb a b = false.
Proof.
  intros Hn. destruct (text_eqb a b) eqn:E; [|reflexivity].
  apply text_eqb_eq in E. contradiction.
Qed.

Lemma strip_prefix_app (l t : text) : strip_prefix l (l ++ t) = Some t.
Proof.
  induction l as [|c l IH]; simpl; [reflexivity|].
  rewrite Ascii.eqb_refl. exact IH.
Qed.

Lemma strip_prefix_Some (l s t : text) :
  strip_prefix l s = Some t -> s = l ++ t.
Proof.
  revert s. induction l as [|c l IH]; intros s H; simpl in *.
  - congruence.
  - destruct s as [|a s]; [discriminate|].
    destruct (Ascii.eqb_spec a c); [|discriminate].
    subst. f_equal. apply IH. exact H.
Qed.

Lemma span_spec (f : ascii -> bool) (s r tl : text) :
  span f s = (r, tl) ->
  s = r ++ tl /\ forallb f r = true /\
  match tl with a :: _ => f a = false | [] => True end.
Proof.
  revert r tl. induction s as [|a s IH]; intros r tl H; simpl in H.
  - inversion H; subst. auto.
  - destruct (f a) eqn:Fa.
    + destruct (span f s) as [r0 tl0] eqn:E. inversion H; subst.
      destruct (IH _ _ eq_refl) as (-> & Hr & Ht).
      simpl. rewrite Fa, Hr. auto.
    + inversion H; subst. simpl. auto.
Qed.

Lemma span_app (f : ascii -> bool) (r tl : text) :
  forallb f r = true ->
  match tl with a :: _ => f a = false | [] => True end ->
  span f (r ++ tl) = (r, tl).
Proof.
  intros Hr Ht. induction r as [|a r IH]; simpl in *.
  - destruct tl as [|b tl]; [reflexivity|]. simpl. rewrite Ht. reflexivity.
  - apply andb_true_iff in Hr as [Ha Hr]. rewrite Ha, (IH Hr). reflexivity.
Qed.

(** ** Line ends of a text file *)

Module NewlineFacts.

(** A text without carriage return is read as it is. *)
Lemma universal_newlines_plain (s : text) :
  ~ In carriage_return s -> universal_newlines s = s.
Proof.
  unfold universal_newlines. induction s as [|c s IH]; [reflexivity|].
  intros H. cbn [translate_newlines].
  destruct (Ascii.eqb_spec c carriage_return) as [->|_].
  - exfalso. apply H. left. reflexivity.
  - assert (E : translate_newlines false s = s)
      by (apply IH; intros Hin; apply H; right; exact Hin).
    rewrite E. destruct (Ascii.eqb_spec c newline) as [->|_]; reflexivity.
Qed.

(** What has been read holds no carriage return. *)
Lemma translate_newlines_no_cr (s : text) : forall b,
  ~ In carriage_return (translate_newlines b s).
Proof.
  induction s as [|c s IH]; intros b; cbn [translate_newlines]; [intros []|].
  destruct (Ascii.eqb_spec c carriage_return) as [->|Hc].
  - intros [D|Hin]; [discriminate | exact (IH true Hin)].
  - destruct (Ascii.eqb_spec c newline) as [->|Hn].
    + destruct b; [apply IH|].
      intros [D|Hin]; [discriminate | exact (IH false Hin)].
    + intros [D|Hin]; [congruence | exact (IH false Hin)].
Qed.

Lemma universal_newlines_no_cr (s : text) :
  ~ In carriage_return (universal_newlines s).
Proof. apply translate_newlines_no_cr. Qed.

(** Reading again what has been read changes nothing. *)
Lemma universal_newlines_idem (s : text) :
  universal_newlines (universal_newlines s) = universal_newlines s.
Proof. apply universal_newlines_plain, universal_newlines_no_cr. Qed.

(** In front of a character that is no line feed the text can be cut. *)
Lemma translate_newlines_cut (a : text) (c : ascii) (r : text) :
  c <> newline -> forall b,
  translate_newlines b (a ++ c :: r)
  = translate_newlines b a ++ translate_newlines false (c :: r).
Proof.
  intros Hc. induction a as [|x a IH]; intros b.
  - cbn [app translate_newlines].
    destruct (Ascii.eqb_spec c carriage_return); [reflexivity|].
    destruct (Ascii.eqb_spec c newline); [contradiction | reflexivity].
  - cbn [app translate_newlines].
    destruct (Ascii.eqb x carriage_return); [rewrite IH; reflexivity|].
    destruct (Ascii.eqb x newline); [destruct b|]; rewrite IH; reflexivity.
Qed.

Lemma universal_newlines_cut (a : text) (c : ascii) (r : text) :
  c <> newline ->
  universal_newlines (a ++ c :: r)
  = universal_newlines a ++ universal_newlines (c :: r).
Proof. intros Hc. apply translate_newlines_cut. exact Hc. Qed.

(** The entry of a value is read as the entry of the value as read. *)
Lemma universal_newlines_version_line (v r : text) :
  universal_newlines (version_line v ++ r)
  = version_line (universal_newlines v) ++ universal_newlines r.
Proof.
  unfold version_line. rewrite <- !app_assoc.
  change (universal_newlines (txt "version = " ++ (dquote :: v ++ [dquote]) ++ r))
    with (txt "version = " ++ dquote :: universal_newlines ((v ++ [dquote]) ++ r)).
  rewrite <- app_assoc. cbn [app].
  rewrite universal_newlines_cut by discriminate.
  rewrite <- !app_assoc. reflexivity.
Qed.

Lemma universal_newlines_nonempty (s : text) :
  s <> [] -> universal_newlines s <> [].
Proof.
  destruct s as [|c s]; [contradiction|]. intros _.
  unfold universal_newlines. cbn [translate_newlines].
  destruct (Ascii.eqb c carriage_return); [discriminate|].
  destruct (Ascii.eqb c newline); discriminate.
Qed.

Lemma translate_newlines_keeps (x : ascii) (s : text) : forall b,
  x <> newline -> In x (translate_newlines b s) -> In x s.
Proof.
  induction s as [|c s IH]; intros b Hx; cbn [translate_newlines]; [intros []|].
  destruct (Ascii.eqb_spec c carriage_return) as [->|Hc].
  - intros [D|Hin]; [congruence | right; exact (IH true Hx Hin)].
  - destruct (Ascii.eqb_spec c newline) as [->|Hn].
    + destruct b; [intros Hin; right; exact (IH false Hx Hin)|].
      intros [D|Hin]; [congruence | right; exact (IH false Hx Hin)].
    + intros [D|Hin]; [left; exact D | right; exact (IH false Hx Hin)].
Qed.

Lemma universal_newlines_no_dquote (s : text) :
  ~ In dquote s -> ~ In dquote (universal_newlines s).
Proof.
  intros H Hin. apply H. eapply translate_newlines_keeps; [|exact Hin].
  discriminate.
Qed.

End NewlineFacts.

(** ** The matcher on the shapes the script's patterns are made of *)

Module ReFacts.
Import Re.

Lemma orelse_None {R} (a : option R) : orelse a None = a.
Proof. destruct a; reflexivity. Qed.

Lemma bt_Seq {R} r1 r2 st (k : cursor -> option R) :
  bt (Seq r1 r2) st k = bt r1 st (fun st1 => bt r2 st1 k).
Proof. reflexivity. Qed.

Lemma bt_Chr {R} c p s g (k : cursor -> option R) :
  bt (Chr c) (Cursor p s g) k =
  match s with
  | a :: t => if Ascii.eqb a c then k (Cursor (S p) t g) else None
  | [] => None
  end.
Proof. destruct s; reflexivity. Qed.

Lemma bt_Cls {R} cl p s g (k : cursor -> option R) :
  bt (Cls cl) (Cursor p s g) k =
  match s with
  | a :: t => if cclass_mem cl a then k (Cursor (S p) t g) else None
  | [] => None
  end.
Proof. destruct s; reflexivity. Qed.

Lemma bt_Opt {R} r st (k : cursor -> option R) :
  bt (Opt r) st k = orelse (bt r st k) (k st).
Proof. reflexivity. Qed.

Lemma bt_Bol {R} st (k : cursor -> option R) :
  bt Bol st k = if pos st =? 0 then k st else None.
Proof. reflexivity. Qed.

Lemma bt_Str {R} (l : text) (p : nat) (s : text) g (k : cursor -> option R) :
  bt (Str l) (Cursor p s g) k =
  match strip_prefix l s with
  | Some t => k (Cursor (p + length l) t g)
  | None => None
  end.
Proof.
  revert p s. induction l as [|c l IH]; intros p s; simpl.
  - rewrite Nat.add_0_r. reflexivity.
  - destruct s as [|a s]; [reflexivity|].
    destruct (Ascii.eqb a c); [|reflexivity].
    unfold advance; simpl. rewrite IH.
    replace (S p + length l) with (p + S (length l)) by lia. reflexivity.
Qed.

(** The greedy star of a class, in front of a continuation that rejects the
    class, takes the longest run and does not come back. *)
Lemma star_loop_class {R} (cl : cclass) (k : cursor -> option R) :
  rejects cl k ->
  forall (s : text) (fuel p : nat) g,
    length s < fuel ->
    star_loop (fun st0 k0 => bt (Cls cl) st0 k0) k fuel (Cursor p s g) =
    k (Cursor (p + length (fst (span (cclass_mem cl) s)))
              (snd (span (cclass_mem cl) s)) g).
Proof.
  intros Hrej. induction s as [|a s IH]; intros fuel p g Hf.
  - destruct fuel as [|f]; [inversion Hf|]. simpl.
    rewrite Nat.add_0_r. reflexivity.
  - destruct fuel as [|f]; [inversion Hf|]. simpl in Hf.
    simpl. destruct (cclass_mem cl a) eqn:Ma.
    + unfold advance; simpl.
      replace (p <? S p) with true by (symmetry; apply Nat.ltb_lt; lia).
      rewrite (Hrej p a s g Ma), orelse_None.
      rewrite IH by lia.
      destruct (span (cclass_mem cl) s) as [r tl]; simpl.
      rewrite Nat.add_succ_r. reflexivity.
    + simpl. rewrite Nat.add_0_r. reflexivity.
Qed.

Lemma bt_star_class {R} (cl : cclass) (k : cursor -> option R) p s g :
  rejects cl k ->
  bt (Star (Cls cl)) (Cursor p s g) k =
  k (Cursor (p + length (fst (span (cclass_mem cl) s)))
            (snd (span (cclass_mem cl) s)) g).
Proof.
  intros Hrej.
  change (bt (Star (Cls cl)) (Cursor p s g) k)
    with (star_loop (fun st0 k0 => bt (Cls cl) st0 k0) k (S (length s))
            (Cursor p s g)).
  apply star_loop_class; [exact Hrej|]. lia.
Qed.

Lemma bt_plus_class {R} (cl : cclass) (k : cursor -> option R) p s g :
  rejects cl k ->
  bt (Plus (Cls cl)) (Cursor p s g) k =
  match span (cclass_mem cl) s with
  | ((_ :: _) as r, tl) => k (Cursor (p + length r) tl g)
  | ([], _) => None
  end.
Proof.
  intros Hrej. unfold Plus.
  change (bt (Seq (Cls cl) (Star (Cls cl))) (Cursor p s g) k)
    with (bt (Cls cl) (Cursor p s g) (fun st1 => bt (Star (Cls cl)) st1 k)).
  rewrite bt_Cls.
  destruct s as [|a s]; [reflexivity|].
  cbn [span]. destruct (cclass_mem cl a); [|reflexivity].
  rewrite bt_star_class by exact Hrej.
  destruct (span (cclass_mem cl) s) as [r tl]; cbn [fst snd length].
  rewrite Nat.add_succ_r. reflexivity.
Qed.

Lemma bt_group_plus_class {R} n (cl : cclass) (k : cursor -> option R) p s g :
  rejects cl k ->
  bt (Group n (Plus (Cls cl))) (Cursor p s g) k =
  match span (cclass_mem cl) s with
  | ((_ :: _) as r, tl) => k (Cursor (p + length r) tl ((n, r) :: g))
  | ([], _) => None
  end.
Proof.
  intros Hrej.
  change (bt (Group n (Plus (Cls cl))) (Cursor p s g) k)
    with (bt (Plus (Cls cl)) (Cursor p s g)
            (fun st1 => k (Cursor (pos st1) (rest st1)
               ((n, firstn (pos st1 - p) s) :: groups st1)))).
  rewrite bt_plus_class.
  - destruct (span (cclass_mem cl) s) as [r tl] eqn:E.
    destruct r as [|a r]; [reflexivity|].
    cbn [pos rest groups].
    apply span_spec in E as (-> & _ & _).
    replace (p + length (a :: r) - p) with (length (a :: r)) by lia.
    rewrite firstn_app, firstn_all, Nat.sub_diag. cbn [firstn].
    rewrite app_nil_r. reflexivity.
  - intros p' a t g' Ma. cbn [pos rest groups]. apply Hrej. exact Ma.
Qed.

End ReFacts.

Module PatternFacts.
Import Re ReFacts.

Lemma rejects_chr {R} (cl : cclass) (c : ascii) (k : cursor -> option R) :
  cclass_mem cl c = false ->
  rejects cl (fun st1 => bt (Chr c) st1 k).
Proof.
  intros Hc p a t g Ma. rewrite bt_Chr.
  destruct (Ascii.eqb_spec a c); [subst; congruence | reflexivity].
Qed.

Lemma rejects_seq_chr {R} (cl : cclass) (c : ascii) r (k : cursor -> option R) :
  cclass_mem cl c = false ->
  rejects cl (fun st1 => bt (Seq (Chr c) r) st1 k).
Proof.
  intros Hc p a t g Ma. rewrite bt_Seq, bt_Chr.
  destruct (Ascii.eqb_spec a c); [subst; congruence | reflexivity].
Qed.

Lemma final_advanced (p q : nat) (ma : bool) g :
  p < q ->
  (if ma && (q =? p) then None else Some (RMatch p q g)) = Some (RMatch p q g).
Proof.
  intros Hlt. replace (q =? p) with false by (symmetry; apply Nat.eqb_neq; lia).
  rewrite andb_false_r. reflexivity.
Qed.

Lemma version_line_length (v : text) : length (version_line v) = 12 + length v.
Proof.
  unfold version_line. rewrite length_app. cbn [length]. rewrite length_app.
  simpl. lia.
Qed.

Lemma not_dquote_false (c : ascii) : not_dquote c = false -> c = dquote.
Proof.
  unfold not_dquote. destruct (Ascii.eqb_spec c dquote); [auto | discriminate].
Qed.

Lemma forallb_not_dquote (v : text) :
  forallb not_dquote v = true <-> ~ In dquote v.
Proof.
  rewrite forallb_forall. split.
  - intros H Hin. specialize (H _ Hin). discriminate.
  - intros H x Hx. unfold not_dquote.
    destruct (Ascii.eqb_spec x dquote); [subst; contradiction | reflexivity].
Qed.

(** One attempt of the capturing pattern. *)
Lemma match_here_version_capture (p : nat) (s : text) (ma : bool) :
  match_here version_capture_re p s ma =
  match version_entry_at s with
  | Some (v, _) => Some (RMatch p (p + length (version_line v)) [(1, v)])
  | None => None
  end.
Proof.
  unfold match_here, version_capture_re, version_entry_at.
  rewrite bt_Seq, bt_Str.
  destruct (strip_prefix (txt "version = ") s) as [s0|]; [|reflexivity].
  rewrite bt_Seq, bt_Chr. destruct s0 as [|q s1]; [reflexivity|].
  destruct (Ascii.eqb q dquote); [|reflexivity].
  rewrite bt_Seq, bt_group_plus_class by (apply rejects_chr; reflexivity).
  change (cclass_mem (NotChar dquote)) with not_dquote.
  destruct (span not_dquote s1) as [v tl] eqn:E.
  destruct v as [|a v]; [reflexivity|].
  rewrite bt_Chr. destruct tl as [|c tl]; [reflexivity|].
  destruct (span_spec _ _ _ _ E) as (_ & _ & Hc).
  apply not_dquote_false in Hc. subst c. rewrite Ascii.eqb_refl.
  cbn [pos groups]. rewrite version_line_length.
  replace (S (S (p + length (txt "version = ")) + length (a :: v)))
    with (p + (12 + length (a :: v))) by (simpl; lia).
  apply final_advanced. lia.
Qed.

(** One attempt of the pattern of the substitution. *)
Lemma match_here_version (p : nat) (s : text) (ma : bool) :
  match_here version_re p s ma =
  match version_entry_at s with
  | Some (v, _) => Some (RMatch p (p + length (version_line v)) [])
  | None => None
  end.
Proof.
  unfold match_here, version_re, version_entry_at.
  rewrite bt_Seq, bt_Str.
  destruct (strip_prefix (txt "version = ") s) as [s0|]; [|reflexivity].
  rewrite bt_Seq, bt_Chr. destruct s0 as [|q s1]; [reflexivity|].
  destruct (Ascii.eqb q dquote); [|reflexivity].
  rewrite bt_Seq, bt_plus_class by (apply rejects_chr; reflexivity).
  change (cclass_mem (NotChar dquote)) with not_dquote.
  destruct (span not_dquote s1) as [v tl] eqn:E.
  destruct v as [|a v]; [reflexivity|].
  rewrite bt_Chr. destruct tl as [|c tl]; [reflexivity|].
  destruct (span_spec _ _ _ _ E) as (_ & _ & Hc).
  apply not_dquote_false in Hc. subst c. rewrite Ascii.eqb_refl.
  cbn [pos groups]. rewrite version_line_length.
  replace (S (S (p + length (txt "version = ")) + length (a :: v)))
    with (p + (12 + length (a :: v))) by (simpl; lia).
  apply final_advanced. lia.
Qed.

Lemma version_line_app (v tl : text) :
  version_line v ++ tl = txt "version = " ++ dquote :: v ++ dquote :: tl.
Proof.
  unfold version_line. rewrite <- app_assoc. cbn [app].
  rewrite <- app_assoc. reflexivity.
Qed.

(** The direct reading finds exactly the entries of the vocabulary. *)
Lemma version_entry_at_spec (s v tl : text) :
  version_entry_at s = Some (v, tl) <->
  s = version_line v ++ tl /\ v <> [] /\ ~ In dquote v.
Proof.
  unfold version_entry_at. split.
  - destruct (strip_prefix (txt "version = ") s) as [s0|] eqn:P; [|discriminate].
    apply strip_prefix_Some in P. destruct s0 as [|q s1]; [discriminate|].
    destruct (Ascii.eqb_spec q dquote); [subst q|discriminate].
    destruct (span not_dquote s1) as [v0 tl0] eqn:E.
    destruct v0 as [|a v0]; [discriminate|].
    destruct tl0 as [|c tl0]; [discriminate|].
    intros H; inversion H; subst v tl; clear H.
    destruct (span_spec _ _ _ _ E) as (-> & Hv & Hc).
    apply not_dquote_false in Hc. subst c.
    split; [|split].
    + rewrite version_line_app. exact P.
    + discriminate.
    + apply forallb_not_dquote. exact Hv.
  - intros (-> & Hne & Hq). rewrite version_line_app, strip_prefix_app.
    rewrite Ascii.eqb_refl.
    rewrite (span_app not_dquote v (dquote :: tl)).
    + destruct v; [contradiction|reflexivity].
    + apply forallb_not_dquote. exact Hq.
    + reflexivity.
Qed.

Lemma starts_version_entry_iff (s : text) :
  starts_version_entry s <-> version_entry_at s <> None.
Proof.
  split.
  - intros (v & tl & H). apply version_entry_at_spec in H. congruence.
  - intros H. destruct (version_entry_at s) as [[v tl]|] eqn:E; [|congruence].
    exists v, tl. apply version_entry_at_spec. exact E.
Qed.

Lemma find_entry_eq (s : text) :
  find_entry s =
  match version_entry_at s with
  | Some (v, tl) => Some ([], v, tl)
  | None =>
      match s with
      | [] => None
      | a :: s' =>
          match find_entry s' with
          | Some (pre, v, tl) => Some (a :: pre, v, tl)
          | None => None
          end
      end
  end.
Proof. destruct s; reflexivity. Qed.

Lemma find_entry_Some (s pre v tl : text) :
  find_entry s = Some (pre, v, tl) <-> first_version_entry s pre v tl.
Proof.
  split.
  - revert pre. induction s as [|a s IH]; intros pre H; cbn [find_entry] in H.
    + destruct (version_entry_at []) as [[v0 tl0]|] eqn:E; [|discriminate].
      inversion H; subst. apply version_entry_at_spec in E as (E1 & E2 & E3).
      repeat split; auto.
      intros p1 p2 Hp Hne. destruct p1; destruct p2; simpl in Hp; congruence.
    + destruct (version_entry_at (a :: s)) as [[v0 tl0]|] eqn:E.
      * inversion H; subst.
        apply version_entry_at_spec in E as (E1 & E2 & E3).
        repeat split; auto.
        intros p1 p2 Hp Hne. destruct p1; destruct p2; simpl in Hp; congruence.
      * destruct (find_entry s) as [[[pre0 v0] tl0]|] eqn:F; [|discriminate].
        inversion H; subst. destruct (IH _ eq_refl) as (E1 & E2 & E3 & E4).
        repeat split; auto.
        { rewrite <- app_comm_cons, E1. reflexivity. }
        intros p1 p2 Hp Hne Hst. destruct p1 as [|b p1]; simpl in Hp.
        { subst p2. rewrite <- app_comm_cons, <- E1 in Hst.
          apply starts_version_entry_iff in Hst. congruence. }
        { inversion Hp; subst. eapply E4; eauto. }
  - revert s. induction pre as [|a pre IH]; intros s (E1 & E2 & E3 & E4).
    + cbn [app] in E1. subst s.
      assert (H : version_entry_at (version_line v ++ tl) = Some (v, tl))
        by (apply version_entry_at_spec; auto).
      rewrite find_entry_eq, H. reflexivity.
    + rewrite <- app_comm_cons in E1. subst s. rewrite find_entry_eq.
      destruct (version_entry_at (a :: pre ++ version_line v ++ tl)) eqn:E.
      * exfalso. apply (E4 [] (a :: pre) eq_refl); [discriminate|].
        apply starts_version_entry_iff. rewrite <- app_comm_cons. congruence.
      * rewrite (IH (pre ++ version_line v ++ tl)); [reflexivity|].
        repeat split; auto.
        intros p1 p2 Hp Hne. apply (E4 (a :: p1) p2); [|exact Hne].
        simpl. rewrite Hp. reflexivity.
Qed.

Lemma find_entry_None (s : text) :
  find_entry s = None <-> no_version_entry s.
Proof.
  split.
  - induction s as [|a s IH]; intros H pre s' Hs Hst; cbn [find_entry] in H.
    + destruct pre; destruct s'; simpl in Hs; try discriminate.
      apply starts_version_entry_iff in Hst.
      destruct (version_entry_at []) as [[? ?]|]; [discriminate|congruence].
    + destruct (version_entry_at (a :: s)) as [[? ?]|] eqn:E; [discriminate|].
      destruct pre as [|b pre]; simpl in Hs.
      * subst s'. apply starts_version_entry_iff in Hst. congruence.
      * inversion Hs; subst. apply (IH) with (pre := pre) (s' := s'); auto.
        destruct (find_entry (pre ++ s')) as [[[? ?] ?]|]; [discriminate|reflexivity].
  - induction s as [|a s IH]; intros H; cbn [find_entry].
    + destruct (version_entry_at []) as [[v tl]|] eqn:E; [|reflexivity].
      exfalso. apply (H [] [] eq_refl). apply starts_version_entry_iff. congruence.
    + destruct (version_entry_at (a :: s)) as [[v tl]|] eqn:E.
      * exfalso. apply (H [] (a :: s) eq_refl).
        apply starts_version_entry_iff. congruence.
      * rewrite IH; [reflexivity|].
        intros pre s' Hs. apply (H (a :: pre) s'). simpl. rewrite Hs. reflexivity.
Qed.

Lemma search_from_version (s : text) : forall (p : nat) (ma : bool),
  search_from version_re p s ma =
  match find_entry s with
  | Some (pre, v, _) =>
      Some (RMatch (p + length pre) (p + length pre + length (version_line v)) [])
  | None => None
  end.
Proof.
  induction s as [|a s IH]; intros p ma; cbn [search_from find_entry];
    rewrite match_here_version.
  - destruct (version_entry_at []) as [[v tl]|]; [|reflexivity].
    cbn [length]. rewrite Nat.add_0_r. reflexivity.
  - destruct (version_entry_at (a :: s)) as [[v tl]|].
    + cbn [length]. rewrite Nat.add_0_r. reflexivity.
    + rewrite IH. destruct (find_entry s) as [[[pre v] tl]|]; [|reflexivity].
      cbn [length]. rewrite Nat.add_succ_r. reflexivity.
Qed.

Lemma search_from_version_capture (s : text) : forall (p : nat) (ma : bool),
  search_from version_capture_re p s ma =
  match find_entry s with
  | Some (pre, v, _) =>
      Some (RMatch (p + length pre) (p + length pre + length (version_line v))
                   [(1, v)])
  | None => None
  end.
Proof.
  induction s as [|a s IH]; intros p ma; cbn [search_from find_entry];
    rewrite match_here_version_capture.
  - destruct (version_entry_at []) as [[v tl]|]; [|reflexivity].
    cbn [length]. rewrite Nat.add_0_r. reflexivity.
  - destruct (version_entry_at (a :: s)) as [[v tl]|].
    + cbn [length]. rewrite Nat.add_0_r. reflexivity.
    + rewrite IH. destruct (find_entry s) as [[[pre v] tl]|]; [|reflexivity].
      cbn [length]. rewrite Nat.add_succ_r. reflexivity.
Qed.

Lemma expand_literal (t whole : text) :
  expand (literal_template t) whole = t.
Proof.
  induction t as [|c t IH]; simpl; [reflexivity|]. rewrite IH. reflexivity.
Qed.

(** The substitution loop with a literal replacement replaces every entry. *)
Lemma sub_loop_version_literal (new : text) : forall (fuel : nat) (s : text) (p : nat),
  length s < fuel ->
  ReplacedAll new s
    (sub_loop version_re (literal_template (version_line new)) fuel p s false).
Proof.
  induction fuel as [|fuel IH]; intros s p Hf; [inversion Hf|].
  cbn [sub_loop]. rewrite search_from_version.
  destruct (find_entry s) as [[[pre v] tl]|] eqn:E.
  - apply find_entry_Some in E. pose proof E as (E1 & _).
    cbn [m_start m_end].
    replace (p + length pre - p) with (length pre) by lia.
    replace (p + length pre + length (version_line v) - (p + length pre))
      with (length (version_line v)) by lia.
    replace (p + length pre + length (version_line v) - p)
      with (length pre + length (version_line v)) by lia.
    replace (p + length pre + length (version_line v) =? p + length pre)
      with false
      by (symmetry; apply Nat.eqb_neq; rewrite version_line_length; lia).
    rewrite expand_literal.
    assert (Hpre : firstn (length pre) s = pre).
    { rewrite E1, firstn_app, firstn_all, Nat.sub_diag. simpl.
      apply app_nil_r. }
    assert (Htl : skipn (length pre + length (version_line v)) s = tl).
    { rewrite E1, app_assoc, <- length_app, skipn_app, skipn_all, Nat.sub_diag.
      reflexivity. }
    rewrite Hpre, Htl.
    apply RA_step with (v := v) (tl := tl); [exact E|].
    apply IH. rewrite E1 in Hf. rewrite !length_app, version_line_length in Hf. lia.
  - apply RA_done. apply find_entry_None. exact E.
Qed.

(** Without any entry the loop returns its input, whatever the template. *)
Lemma sub_loop_version_no_entry tpl (fuel : nat) (s : text) (p : nat) :
  no_version_entry s ->
  sub_loop version_re tpl fuel p s false = s.
Proof.
  intros H. apply find_entry_None in H.
  destruct fuel; cbn [sub_loop]; [reflexivity|].
  rewrite search_from_version, H. reflexivity.
Qed.

End PatternFacts.

Module SemverFacts.
Import Re ReFacts PatternFacts.

Lemma bt_Eol {R} p s g (k : cursor -> option R) :
  bt Eol (Cursor p s g) k = if at_eol s then k (Cursor p s g) else None.
Proof. destruct s as [|a [|b t]]; reflexivity. Qed.

Lemma at_eol_spec (s : text) : at_eol s = true <-> s = [] \/ s = [newline].
Proof.
  destruct s as [|a [|b t]]; simpl.
  - split; auto.
  - destruct (Ascii.eqb_spec a newline); split; intros H; subst; auto;
      try discriminate.
    destruct H as [H|H]; [discriminate | inversion H; contradiction].
  - split; [discriminate | intros [H|H]; discriminate].
Qed.

Lemma digit_not (a c : ascii) :
  is_digit a = true -> is_digit c = false -> Ascii.eqb a c = false.
Proof.
  intros Ha Hc. destruct (Ascii.eqb_spec a c); [subst; congruence | reflexivity].
Qed.

Lemma rejects_eol {R} (k : cursor -> option R) :
  rejects Dot (fun st1 => bt Eol st1 k).
Proof.
  intros p a t g Ma. rewrite bt_Eol. simpl in Ma.
  apply negb_true_iff in Ma. destruct t; simpl; [rewrite Ma|]; reflexivity.
Qed.

Lemma rejects_semver_tail {R} (k : cursor -> option R) :
  rejects Digit
    (fun st1 => bt (Seq (Opt (Seq (Chr "-") (Star (Cls Dot)))) Eol) st1 k).
Proof.
  intros p a t g Ma. simpl in Ma.
  rewrite bt_Seq, bt_Opt, bt_Seq, bt_Chr.
  rewrite (digit_not a "-" Ma eq_refl). cbn [orelse].
  rewrite bt_Eol. destruct t; simpl; [|reflexivity].
  rewrite (digit_not a newline Ma eq_refl). reflexivity.
Qed.

Lemma bt_semver_tail (p : nat) (s : text) g :
  bt (Seq (Opt (Seq (Chr "-") (Star (Cls Dot)))) Eol) (Cursor p s g)
     (fun st => if false && (pos st =? 0) then None
                else Some (RMatch 0 (pos st) (groups st))) =
  match semver_tail p s with
  | Some e => Some (RMatch 0 e g)
  | None => None
  end.
Proof.
  rewrite bt_Seq, bt_Opt, bt_Seq, bt_Chr, bt_Eol. unfold semver_tail.
  destruct s as [|a t].
  - reflexivity.
  - destruct (Ascii.eqb a "-").
    + rewrite bt_star_class by apply rejects_eol.
      change (cclass_mem Dot) with not_newline.
      destruct (span not_newline t) as [r tl]. cbn [fst snd].
      rewrite bt_Eol. destruct (at_eol tl); cbn [orelse andb pos groups].
      * reflexivity.
      * destruct (at_eol (a :: t)); reflexivity.
    + cbn [orelse]. destruct (at_eol (a :: t)); reflexivity.
Qed.

(** The anchored match of the semantic-version pattern. *)
Lemma re_match_semver (s : text) :
  re_match semver_re s =
  match semver_at s with
  | Some (d1, d2, d3, e) => Some (RMatch 0 e [(3, d3); (2, d2); (1, d1)])
  | None => None
  end.
Proof.
  unfold re_match, match_here, semver_re, semver_at.
  rewrite bt_Seq, bt_Bol. cbn [pos Nat.eqb].
  rewrite bt_Seq, bt_group_plus_class by (apply rejects_seq_chr; reflexivity).
  change (cclass_mem Digit) with is_digit.
  destruct (span is_digit s) as [d1 t1]. destruct d1 as [|a1 d1]; [reflexivity|].
  rewrite bt_Seq, bt_Chr. destruct t1 as [|c1 s1]; [reflexivity|].
  destruct (Ascii.eqb c1 "."); [|reflexivity].
  rewrite bt_Seq, bt_group_plus_class by (apply rejects_seq_chr; reflexivity).
  change (cclass_mem Digit) with is_digit.
  destruct (span is_digit s1) as [d2 t2]. destruct d2 as [|a2 d2]; [reflexivity|].
  rewrite bt_Seq, bt_Chr. destruct t2 as [|c2 s2]; [reflexivity|].
  destruct (Ascii.eqb c2 "."); [|reflexivity].
  rewrite bt_Seq, bt_group_plus_class by apply rejects_semver_tail.
  change (cclass_mem Digit) with is_digit.
  destruct (span is_digit s2) as [d3 s3]. destruct d3 as [|a3 d3]; [reflexivity|].
  rewrite bt_semver_tail.
  replace (S (S (0 + length (a1 :: d1)) + length (a2 :: d2)) + length (a3 :: d3))
    with (length (a1 :: d1) + 1 + length (a2 :: d2) + 1 + length (a3 :: d3))
    by lia.
  destruct (semver_tail _ s3); reflexivity.
Qed.

Lemma forallb_not_newline (v : text) :
  forallb not_newline v = true <-> ~ In newline v.
Proof.
  rewrite forallb_forall. split.
  - intros H Hin. specialize (H _ Hin). discriminate.
  - intros H x Hx. unfold not_newline.
    destruct (Ascii.eqb_spec x newline); [subst; contradiction | reflexivity].
Qed.

Lemma semver_tail_Some (p : nat) (s : text) (e : nat) :
  semver_tail p s = Some e ->
  exists sfx nl, s = sfx ++ nl /\ semver_suffix sfx /\ (nl = [] \/ nl = [newline]).
Proof.
  unfold semver_tail. intros H.
  destruct s as [|a t].
  - exists [], []. repeat split; [left; reflexivity | auto].
  - destruct (Ascii.eqb_spec a "-").
    + subst a. destruct (span not_newline t) as [r tl] eqn:E.
      destruct (span_spec _ _ _ _ E) as (-> & Hr & _).
      destruct (at_eol tl) eqn:A.
      * exists ("-"%char :: r), tl. repeat split.
        -- right. exists r. split; [reflexivity|].
           apply forallb_not_newline. exact Hr.
        -- apply at_eol_spec. exact A.
      * cbn [orelse] in H. destruct (at_eol ("-"%char :: r ++ tl)) eqn:B;
          [|discriminate].
        exists [], ("-"%char :: r ++ tl). repeat split;
          [left; reflexivity | apply at_eol_spec; exact B].
    + cbn [orelse] in H. destruct (at_eol (a :: t)) eqn:B; [|discriminate].
      exists [], (a :: t). repeat split;
        [left; reflexivity | apply at_eol_spec; exact B].
Qed.

Lemma semver_tail_complete (p : nat) (sfx nl : text) :
  semver_suffix sfx -> (nl = [] \/ nl = [newline]) ->
  exists e, semver_tail p (sfx ++ nl) = Some e.
Proof.
  intros Hs Hn. unfold semver_tail. destruct Hs as [->|(t & -> & Ht)].
  - cbn [app]. assert (A : at_eol nl = true) by (apply at_eol_spec; exact Hn).
    rewrite A. destruct Hn as [->| ->]; cbn; eauto.
  - rewrite <- app_comm_cons. rewrite Ascii.eqb_refl.
    rewrite (span_app not_newline t nl).
    + assert (A : at_eol nl = true) by (apply at_eol_spec; exact Hn).
      rewrite A. cbn. eauto.
    + apply forallb_not_newline. exact Ht.
    + destruct Hn as [->| ->]; [exact I | reflexivity].
Qed.

Lemma semver_at_sound (s d1 d2 d3 : text) (e : nat) :
  semver_at s = Some (d1, d2, d3, e) -> semver_text s d1 d2 d3.
Proof.
  unfold semver_at. intros H.
  destruct (span is_digit s) as [x1 t1] eqn:E1.
  destruct x1 as [|a1 x1]; [discriminate|]. destruct t1 as [|c1 s1]; [discriminate|].
  destruct (Ascii.eqb_spec c1 "."); [subst c1|discriminate].
  destruct (span is_digit s1) as [x2 t2] eqn:E2.
  destruct x2 as [|a2 x2]; [discriminate|]. destruct t2 as [|c2 s2]; [discriminate|].
  destruct (Ascii.eqb_spec c2 "."); [subst c2|discriminate].
  destruct (span is_digit s2) as [x3 s3] eqn:E3.
  destruct x3 as [|a3 x3]; [discriminate|].
  destruct (semver_tail _ s3) as [e0|] eqn:T; [|discriminate].
  inversion H; subst; clear H.
  destruct (span_spec _ _ _ _ E1) as (-> & H1 & _).
  destruct (span_spec _ _ _ _ E2) as (-> & H2 & _).
  destruct (span_spec _ _ _ _ E3) as (-> & H3 & _).
  destruct (semver_tail_Some _ _ _ T) as (sfx & nl & -> & Hs & Hn).
  exists sfx, nl. unfold digits. repeat split; auto; discriminate.
Qed.

Lemma semver_at_complete (s d1 d2 d3 : text) :
  semver_text s d1 d2 d3 -> exists e, semver_at s = Some (d1, d2, d3, e).
Proof.
  intros (sfx & nl & -> & (N1 & H1) & (N2 & H2) & (N3 & H3) & Hs & Hn).
  unfold semver_at.
  rewrite (span_app is_digit d1) by (auto; reflexivity).
  destruct d1 as [|a1 d1]; [contradiction|]. rewrite Ascii.eqb_refl.
  rewrite (span_app is_digit d2) by (auto; reflexivity).
  destruct d2 as [|a2 d2]; [contradiction|]. rewrite Ascii.eqb_refl.
  rewrite (span_app is_digit d3).
  - destruct d3 as [|a3 d3]; [contradiction|].
    destruct (semver_tail_complete
                (length (a1 :: d1) + 1 + length (a2 :: d2) + 1 + length (a3 :: d3))
                sfx nl Hs Hn) as (e & ->).
    eauto.
  - exact H3.
  - destruct Hs as [->|(t & -> & _)]; [|reflexivity].
    destruct Hn as [->| ->]; [exact I | reflexivity].
Qed.

End SemverFacts.

(** ** Python's [int] and [str] on non-negative integers *)

Module PyFacts.
Import Py.

Lemma int_of_digits_acc (d : Decimal.uint) : forall acc : positive,
  fold_left (fun a c => (a * 10 + N.of_nat (Re.digit_val c))%N)
            (txt (NilEmpty.string_of_uint d)) (Npos acc)
  = Npos (Pos.of_uint_acc d acc).
Proof.
  induction d; intros acc; cbn [NilEmpty.string_of_uint txt list_ascii_of_string
                                fold_left Pos.of_uint_acc];
    try reflexivity; fold (txt (NilEmpty.string_of_uint d));
    rewrite <- IHd; f_equal; vm_compute Re.digit_val; lia.
Qed.

Lemma int_of_digits_uint (d : Decimal.uint) :
  int_of_digits (txt (NilEmpty.string_of_uint d)) = Pos.of_uint d.
Proof.
  unfold int_of_digits.
  induction d; cbn [NilEmpty.string_of_uint txt list_ascii_of_string
                    fold_left Pos.of_uint];
    try reflexivity; fold (txt (NilEmpty.string_of_uint d));
    try (rewrite <- int_of_digits_acc; f_equal; vm_compute; reflexivity).
  exact IHd.
Qed.

(** [int(str(n)) == n]. *)
Lemma int_of_str (n : N) : int_of_digits (str_of_N n) = n.
Proof.
  unfold str_of_N, NilZero.string_of_uint.
  rewrite <- (DecimalN.Unsigned.of_to n) at 2.
  destruct (N.to_uint n) eqn:E; try (rewrite <- E at 1);
    try (rewrite <- int_of_digits_uint; rewrite E; reflexivity).
Qed.

Lemma uint_digits (d : Decimal.uint) :
  forallb Re.is_digit (txt (NilEmpty.string_of_uint d)) = true.
Proof.
  induction d; cbn [NilEmpty.string_of_uint txt list_ascii_of_string forallb];
    try reflexivity; fold (txt (NilEmpty.string_of_uint d)); rewrite IHd;
    reflexivity.
Qed.

(** [str(n)] is a non-empty string of decimal digits. *)
Lemma str_of_N_digits (n : N) : digits (str_of_N n).
Proof.
  unfold digits, str_of_N, NilZero.string_of_uint.
  destruct (N.to_uint n) eqn:E;
    try (split; [discriminate | reflexivity]);
    (split; [discriminate | apply (uint_digits (_ u))]).
Qed.

(** Every string of digits is the text of a decimal numeral. *)
Lemma digits_uint (d : text) :
  forallb Re.is_digit d = true ->
  exists u, d = txt (NilEmpty.string_of_uint u).
Proof.
  induction d as [|c d IH]; [exists Decimal.Nil; reflexivity|].
  cbn [forallb]. intros H. apply andb_true_iff in H as [Hc Hd].
  destruct (IH Hd) as (u & ->). clear IH Hd.
  destruct c as [b0 b1 b2 b3 b4 b5 b6 b7].
  destruct b0, b1, b2, b3, b4, b5, b6, b7; try discriminate Hc;
    first [ exists (Decimal.D0 u); reflexivity
          | exists (Decimal.D1 u); reflexivity
          | exists (Decimal.D2 u); reflexivity
          | exists (Decimal.D3 u); reflexivity
          | exists (Decimal.D4 u); reflexivity
          | exists (Decimal.D5 u); reflexivity
          | exists (Decimal.D6 u); reflexivity
          | exists (Decimal.D7 u); reflexivity
          | exists (Decimal.D8 u); reflexivity
          | exists (Decimal.D9 u); reflexivity ].
Qed.

Lemma length_string_of_uint (u : Decimal.uint) :
  length (txt (NilEmpty.string_of_uint u)) = Decimal.nb_digits u.
Proof.
  induction u; cbn [NilEmpty.string_of_uint txt list_ascii_of_string length
                    Decimal.nb_digits];
    try reflexivity; fold (txt (NilEmpty.string_of_uint u)); rewrite IHu;
    reflexivity.
Qed.

Lemma str_of_uint (u : Decimal.uint) :
  str_of_N (N.of_uint u) = txt (NilEmpty.string_of_uint (Decimal.unorm u)).
Proof.
  unfold str_of_N. rewrite DecimalN.Unsigned.to_of.
  pose proof (DecimalFacts.unorm_nonnil u) as Hn.
  destruct (Decimal.unorm u); [contradiction|..]; reflexivity.
Qed.

(** The number of a string of digits is written with no more digits than
    the string has. *)
Lemma length_str_of_int (d : text) :
  digits d -> length (str_of_N (int_of_digits d)) <= length d.
Proof.
  intros [Hn Hd]. destruct (digits_uint d Hd) as (u & ->).
  rewrite int_of_digits_uint.
  change (Pos.of_uint u) with (N.of_uint u).
  rewrite str_of_uint, !length_string_of_uint.
  apply DecimalFacts.nb_digits_unorm. intros ->. apply Hn. reflexivity.
Qed.

Lemma int_short (d : text) :
  length d <= int_max_str_digits -> int d = inr (int_of_digits d).
Proof.
  intros H. unfold int. apply Nat.leb_le in H. rewrite H. reflexivity.
Qed.

Lemma int_long (d : text) :
  int_max_str_digits < length d ->
  int d = inl (ValueError (limit_head ++ txt ": value has "
                             ++ str_of_N (N.of_nat (length d))
                             ++ txt " digits" ++ limit_tail)).
Proof.
  intros H. unfold int. apply Nat.leb_gt in H. rewrite H. reflexivity.
Qed.

Lemma str_fits (n : N) : fits n -> str n = inr (str_of_N n).
Proof.
  unfold fits, str. intros H. apply Nat.leb_le in H. rewrite H. reflexivity.
Qed.

Lemma str_limit (n : N) :
  ~ fits n -> str n = inl (ValueError (limit_head ++ limit_tail)).
Proof.
  unfold fits, str. intros H.
  destruct (Nat.leb_spec (length (str_of_N n)) int_max_str_digits);
    [contradiction | reflexivity].
Qed.

Lemma fits_dec (n : N) : fits n \/ ~ fits n.
Proof. unfold fits. lia. Qed.

(** A number that [int] has returned can be written again. *)
Lemma int_fits (d : text) (n : N) : digits d -> int d = inr n -> fits n.
Proof.
  intros Hd. unfold int.
  destruct (Nat.leb_spec (length d) int_max_str_digits) as [L|L];
    [|discriminate].
  intros E. inversion E; subst. unfold fits.
  pose proof (length_str_of_int d Hd). lia.
Qed.

(** [int(str(n)) == n] within the limit. *)
Lemma int_str (n : N) : fits n -> int (str_of_N n) = inr n.
Proof.
  intros H. rewrite int_short by exact H. rewrite int_of_str. reflexivity.
Qed.

Lemma fits_zero : fits 0.
Proof. apply Nat.leb_le. vm_compute. reflexivity. Qed.

End PyFacts.

(** ** The script's functions *)

Module ScriptFacts.
Import Re ReFacts PatternFacts SemverFacts PyFacts.

Lemma world_eta {G} (w : world G) :
  World (manifest w) (environ w) (tool w) (stdout w) (calls w) = w.
Proof. destruct w; reflexivity. Qed.

(** [get_current_version] by cases on the manifest. *)
Lemma get_current_version_eq {G} (w : world G) :
  get_current_version w =
  match manifest w with
  | None => (inr (txt "0.1.0"), w)
  | Some Undecodable => (inl UnicodeDecodeError, w)
  | Some (Chars content) =>
      (inr match find_entry (universal_newlines content) with
           | Some (_, v, _) => v
           | None => txt "0.1.0"
           end, w)
  end.
Proof.
  unfold get_current_version, bind, path_exists, read_file, ret.
  cbv beta. destruct (manifest w) as [[content|]|] eqn:Hm; cbn [negb];
    try rewrite Hm; try reflexivity.
  unfold re_search. rewrite search_from_version_capture.
  destruct (find_entry (universal_newlines content)) as [[[pre v] tl]|];
    reflexivity.
Qed.

(** The three conversions of [parse_version], from left to right. *)
Lemma parse_version_eq (s : text) :
  parse_version s =
  match semver_at s with
  | Some (d1, d2, d3, _) =>
      match Py.int d1 with
      | inl e => inl e
      | inr major =>
          match Py.int d2 with
          | inl e => inl e
          | inr minor =>
              match Py.int d3 with
              | inl e => inl e
              | inr patch => inr (major, minor, patch)
              end
          end
      end
  | None => inl (ValueError (txt "Invalid version format: " ++ s))
  end.
Proof.
  unfold parse_version. rewrite re_match_semver.
  destruct (semver_at s) as [[[[d1 d2] d3] e]|]; reflexivity.
Qed.

Lemma parse_version_semver (s d1 d2 d3 : text) :
  semver_text s d1 d2 d3 ->
  length d1 <= Py.int_max_str_digits ->
  length d2 <= Py.int_max_str_digits ->
  length d3 <= Py.int_max_str_digits ->
  parse_version s =
  inr (Py.int_of_digits d1, Py.int_of_digits d2, Py.int_of_digits d3).
Proof.
  intros H L1 L2 L3. rewrite parse_version_eq.
  destruct (semver_at_complete _ _ _ _ H) as (e & ->).
  rewrite !int_short by assumption. reflexivity.
Qed.

(** Beyond the limit the first number that is too long stops the
    parsing. *)
Lemma parse_version_long (s d1 d2 d3 : text) :
  semver_text s d1 d2 d3 ->
  Py.int_max_str_digits < length d1 \/
  Py.int_max_str_digits < length d2 \/
  Py.int_max_str_digits < length d3 ->
  exists n,
    Py.int_max_str_digits < n /\
    parse_version s =
    inl (ValueError (Py.limit_head ++ txt ": value has "
                       ++ Py.str_of_N (N.of_nat n)
                       ++ txt " digits" ++ Py.limit_tail)).
Proof.
  intros H L. rewrite parse_version_eq.
  destruct (semver_at_complete _ _ _ _ H) as (e & ->).
  destruct (Nat.le_gt_cases (length d1) Py.int_max_str_digits) as [L1|L1].
  2:{ exists (length d1). split; [exact L1|]. rewrite (int_long d1 L1).
      reflexivity. }
  rewrite (int_short d1 L1).
  destruct (Nat.le_gt_cases (length d2) Py.int_max_str_digits) as [L2|L2].
  2:{ exists (length d2). split; [exact L2|]. rewrite (int_long d2 L2).
      reflexivity. }
  rewrite (int_short d2 L2).
  destruct (Nat.le_gt_cases (length d3) Py.int_max_str_digits) as [L3|L3].
  2:{ exists (length d3). split; [exact L3|]. rewrite (int_long d3 L3).
      reflexivity. }
  exfalso. lia.
Qed.

(** What [parse_version] returns has been read from three strings of
    digits within the limit, and can be written again. *)
Lemma parse_version_inr (s : text) (major minor patch : N) :
  parse_version s = inr (major, minor, patch) ->
  exists d1 d2 d3,
    semver_text s d1 d2 d3 /\
    length d1 <= Py.int_max_str_digits /\
    length d2 <= Py.int_max_str_digits /\
    length d3 <= Py.int_max_str_digits /\
    major = Py.int_of_digits d1 /\ minor = Py.int_of_digits d2 /\
    patch = Py.int_of_digits d3 /\
    fits major /\ fits minor /\ fits patch.
Proof.
  rewrite parse_version_eq.
  destruct (semver_at s) as [[[[d1 d2] d3] e]|] eqn:E; [|discriminate].
  pose proof (semver_at_sound _ _ _ _ _ E) as S.
  destruct S as (sfx & nl & Es & D1 & D2 & D3 & Sx & Nl).
  assert (S : semver_text s d1 d2 d3) by (exists sfx, nl; auto 10).
  destruct (Py.int d1) as [e1|a] eqn:I1; [discriminate|].
  destruct (Py.int d2) as [e2|b] eqn:I2; [discriminate|].
  destruct (Py.int d3) as [e3|c] eqn:I3; [discriminate|].
  intros P. inversion P; subst; clear P.
  pose proof (int_fits _ _ D1 I1). pose proof (int_fits _ _ D2 I2).
  pose proof (int_fits _ _ D3 I3).
  unfold Py.int in I1, I2, I3.
  destruct (Nat.leb_spec (length d1) Py.int_max_str_digits); [|discriminate].
  destruct (Nat.leb_spec (length d2) Py.int_max_str_digits); [|discriminate].
  destruct (Nat.leb_spec (length d3) Py.int_max_str_digits); [|discriminate].
  inversion I1; inversion I2; inversion I3; subst.
  exists d1, d2, d3. auto 12.
Qed.

Lemma semver_at_None (s : text) :
  semver_at s = None -> forall d1 d2 d3, ~ semver_text s d1 d2 d3.
Proof.
  intros E d1 d2 d3 H. destruct (semver_at_complete _ _ _ _ H) as (e & He).
  congruence.
Qed.

Lemma no_backslash_compile (t : text) :
  ~ In backslash t -> compile_template t = Some (literal_template t).
Proof.
  intros H. unfold compile_template.
  destruct (existsb (Ascii.eqb backslash) t) eqn:E; [|reflexivity].
  apply existsb_exists in E as (x & Hx & Hb).
  apply Ascii.eqb_eq in Hb. subst x. contradiction.
Qed.

Lemma version_line_no_backslash (new : text) :
  ~ In backslash new -> ~ In backslash (version_line new).
Proof.
  intros H Hin. unfold version_line in Hin.
  apply in_app_or in Hin as [Hin|Hin].
  - revert Hin. vm_compute. intuition discriminate.
  - destruct Hin as [Hin|Hin]; [discriminate|].
    apply in_app_or in Hin as [Hin|[Hin|[]]]; [contradiction | discriminate].
Qed.

(** [update_version_file] on an existing manifest, when the replacement is a
    good template. *)
Lemma update_version_file_existing {G} (new content : text) tpl (w : world G) :
  manifest w = Some (Chars content) ->
  compile_template (version_line new) = Some tpl ->
  update_version_file new w =
  (inr tt,
   World (Some (Chars (sub_loop version_re tpl
                         (2 * length (universal_newlines content) + 2) 0
                         (universal_newlines content) false)))
         (environ w) (tool w)
         (stdout w ++ [Line (txt "Updated version in pyproject.toml to " ++ new)])
         (calls w)).
Proof.
  intros Hm Ht.
  unfold update_version_file, bind, path_exists, read_file, ret, write_file,
    print, raise, re_sub.
  repeat (progress (rewrite ?Hm, ?Ht;
                    cbn [negb fst snd manifest environ tool stdout calls])).
  reflexivity.
Qed.

(** A manifest that does not decode stops [update_version_file] at the
    reading; nothing is written. *)
Lemma update_version_file_undecodable {G} (new : text) (w : world G) :
  manifest w = Some Undecodable ->
  update_version_file new w = (inl UnicodeDecodeError, w).
Proof.
  intros Hm. unfold update_version_file, bind, path_exists, read_file.
  rewrite Hm. cbn [negb]. rewrite Hm. reflexivity.
Qed.

Lemma first_not_none (s pre v tl : text) :
  first_version_entry s pre v tl -> no_version_entry s -> False.
Proof.
  intros H1 H2. apply find_entry_Some in H1. apply find_entry_None in H2.
  congruence.
Qed.

(** [ReplacedAll] determines its result. *)
Lemma ReplacedAll_unique (new s a : text) :
  ReplacedAll new s a -> forall b, ReplacedAll new s b -> a = b.
Proof.
  induction 1 as [s Hn | s pre v tl tl' Hf Hr IH]; intros b Hb.
  - inversion Hb as [s0 Hn' | s0 pre0 v0 tl0 tl0' Hf' Hr']; subst;
      [reflexivity|].
    exfalso. eapply first_not_none; eauto.
  - inversion Hb as [s0 Hn' | s0 pre0 v0 tl0 tl0' Hf' Hr']; subst.
    + exfalso. eapply first_not_none; eauto.
    + apply find_entry_Some in Hf, Hf'. rewrite Hf in Hf'.
      inversion Hf'; subst. f_equal. f_equal. apply IH. exact Hr'.
Qed.

End ScriptFacts.

(** ** Versions: parsing, formatting, bumping *)

Import ScriptFacts.

Lemma bump_version_parsed (s kind : text) (major minor patch : N) :
  parse_version s = inr (major, minor, patch) ->
  bump_version s kind =
  if text_eqb kind (txt "major") then
    fstring [Py.str (major + 1); inr (txt ".0.0")]
  else if text_eqb kind (txt "minor") then
    fstring [Py.str major; inr (txt "."); Py.str (minor + 1); inr (txt ".0")]
  else if text_eqb kind (txt "patch") then
    fstring [Py.str major; inr (txt "."); Py.str minor; inr (txt ".");
             Py.str (patch + 1)]
  else inl (ValueError (txt "Invalid bump type: " ++ kind)).
Proof.
  intros H. unfold bump_version. rewrite H. reflexivity.
Qed.

Lemma digits_chars (d : text) (c : ascii) :
  digits d -> In c d -> Re.is_digit c = true.
Proof.
  intros [_ H] Hin. rewrite forallb_forall in H. auto.
Qed.

Lemma format_version_chars (v : N * N * N) (c : ascii) :
  In c (format_version v) -> Re.is_digit c = true \/ c = "."%char.
Proof.
  destruct v as [[a b] p]. unfold format_version. intros H.
  repeat (apply in_app_or in H as [H|H]);
    try (left; eapply digits_chars; [apply PyFacts.str_of_N_digits | exact H]);
    destruct H as [H|[]]; right; symmetry; exact H.
Qed.

Lemma format_version_semver (a b p : N) :
  semver_text (format_version (a, b, p))
              (Py.str_of_N a) (Py.str_of_N b) (Py.str_of_N p).
Proof.
  exists [], []. unfold format_version. rewrite !app_nil_r.
  repeat split; try apply PyFacts.str_of_N_digits; auto.
  left; reflexivity.
Qed.

(** Parsing the canonical text gives the version back, when its numbers
    are within the limit of the conversions. *)
Lemma parse_format_version (a b p : N) :
  fits a -> fits b -> fits p ->
  parse_version (format_version (a, b, p)) = inr (a, b, p).
Proof.
  intros Fa Fb Fp.
  rewrite (parse_version_semver _ _ _ _ (format_version_semver a b p))
    by assumption.
  rewrite !PyFacts.int_of_str. reflexivity.
Qed.

Ltac eval_kinds :=
  repeat match goal with
         | |- context [text_eqb (txt ?a) (txt ?b)] =>
             let v := eval vm_compute in (text_eqb (txt a) (txt b)) in
             change (text_eqb (txt a) (txt b)) with v
         end;
  cbv iota.

(** A bump whose incremented number is within the limit returns the
    canonical text of the bumped version. *)
Lemma bump_version_fits (s kind : text) (t : N * N * N) :
  parse_version s = inr t -> bump_kind kind ->
  fits (bumped_number t kind) ->
  bump_version s kind = inr (format_version (bumped t kind)).
Proof.
  destruct t as [[a b] c]. intros P K F.
  destruct (parse_version_inr _ _ _ _ P)
    as (d1 & d2 & d3 & _ & _ & _ & _ & _ & _ & _ & Fa & Fb & Fc).
  rewrite (bump_version_parsed _ kind _ _ _ P).
  unfold bumped, bumped_number in *.
  destruct K as [->|[->| ->]]; revert F; eval_kinds; intros F;
    cbn [fstring]; rewrite ?(PyFacts.str_fits _ F), ?(PyFacts.str_fits _ Fa),
      ?(PyFacts.str_fits _ Fb); unfold format_version;
    rewrite ?app_nil_r; reflexivity.
Qed.

(** A bump whose incremented number is beyond the limit raises the
    ValueError of the conversion. *)
Lemma bump_version_beyond (s kind : text) (t : N * N * N) :
  parse_version s = inr t -> bump_kind kind ->
  ~ fits (bumped_number t kind) ->
  bump_version s kind = inl (ValueError (Py.limit_head ++ Py.limit_tail)).
Proof.
  destruct t as [[a b] c]. intros P K F.
  destruct (parse_version_inr _ _ _ _ P)
    as (d1 & d2 & d3 & _ & _ & _ & _ & _ & _ & _ & Fa & Fb & Fc).
  rewrite (bump_version_parsed _ kind _ _ _ P).
  unfold bumped_number in *.
  destruct K as [->|[->| ->]]; revert F; eval_kinds; intros F;
    cbn [fstring]; rewrite ?(PyFacts.str_limit _ F), ?(PyFacts.str_fits _ Fa),
      ?(PyFacts.str_fits _ Fb); reflexivity.
Qed.

Lemma bump_kind_eqb (kind : text) :
  bump_kind kind \/
  (text_eqb kind (txt "major") = false /\ text_eqb kind (txt "minor") = false
   /\ text_eqb kind (txt "patch") = false).
Proof.
  unfold bump_kind.
  destruct (text_eqb kind (txt "major")) eqn:E1;
    [apply text_eqb_eq in E1; auto|].
  destruct (text_eqb kind (txt "minor")) eqn:E2;
    [apply text_eqb_eq in E2; auto|].
  destruct (text_eqb kind (txt "patch")) eqn:E3;
    [apply text_eqb_eq in E3; auto|].
  auto.
Qed.

(** What a bump that returns has returned. *)
Lemma bump_version_inr (s kind out : text) (t : N * N * N) :
  parse_version s = inr t -> bump_version s kind = inr out ->
  bump_kind kind /\ fits (bumped_number t kind) /\
  out = format_version (bumped t kind).
Proof.
  intros P B. destruct (bump_kind_eqb kind) as [K|(E1 & E2 & E3)].
  - destruct (PyFacts.fits_dec (bumped_number t kind)) as [F|F].
    + rewrite (bump_version_fits _ _ _ P K F) in B. inversion B. auto.
    + rewrite (bump_version_beyond _ _ _ P K F) in B. discriminate.
  - destruct t as [[a b] c]. rewrite (bump_version_parsed _ kind _ _ _ P) in B.
    rewrite E1, E2, E3 in B. discriminate.
Qed.

Lemma bumped_fits (t : N * N * N) (kind : text) :
  (let '(a, b, c) := t in fits a /\ fits b /\ fits c) ->
  fits (bumped_number t kind) ->
  let '(a, b, c) := bumped t kind in fits a /\ fits b /\ fits c.
Proof.
  destruct t as [[a b] c]. unfold bumped, bumped_number.
  intros (Fa & Fb & Fc) F.
  pose proof PyFacts.fits_zero as F0.
  destruct (text_eqb kind (txt "major")); [auto|].
  destruct (text_eqb kind (txt "minor")); auto.
Qed.

(** The text a bump returns parses to the bumped version. *)
Lemma parse_bumped (s kind : text) (t : N * N * N) :
  parse_version s = inr t -> fits (bumped_number t kind) ->
  parse_version (format_version (bumped t kind)) = inr (bumped t kind).
Proof.
  intros P F. destruct t as [[a b] c].
  destruct (parse_version_inr _ _ _ _ P)
    as (d1 & d2 & d3 & _ & _ & _ & _ & _ & _ & _ & Fa & Fb & Fc).
  pose proof (bumped_fits (a, b, c) kind (conj Fa (conj Fb Fc)) F) as Fs.
  destruct (bumped (a, b, c) kind) as [[a' b'] c'].
  destruct Fs as (Fa' & Fb' & Fc'). apply parse_format_version; assumption.
Qed.

Lemma not_fits_ltb (n : N) :
  (Py.int_max_str_digits <? length (Py.str_of_N n)) = true -> ~ fits n.
Proof. unfold fits. intros H. apply Nat.ltb_lt in H. lia. Qed.

Lemma fits_leb (n : N) :
  (length (Py.str_of_N n) <=? Py.int_max_str_digits) = true -> fits n.
Proof. unfold fits. intros H. apply Nat.leb_le in H. exact H. Qed.

(** C8: a text that the semantic-version pattern does not match makes
    [parse_version] raise the ValueError that reports the invalid format;
    no value is returned. *)
Theorem parse_version_rejects (s : text)
    (H : forall d1 d2 d3, ~ semver_text s d1 d2 d3) :
  parse_version s = inl (ValueError (txt "Invalid version format: " ++ s)).
Proof.
  rewrite parse_version_eq.
  destruct (semver_at s) as [[[[d1 d2] d3] e]|] eqn:E; [|reflexivity].
  exfalso. apply (H d1 d2 d3). eapply SemverFacts.semver_at_sound. exact E.
Qed.

Lemma parse_version_rejects_witness :
  parse_version (txt "1.2")
    = inl (ValueError (txt "Invalid version format: " ++ txt "1.2")) /\
  parse_version (txt "a.b.c")
    = inl (ValueError (txt "Invalid version format: " ++ txt "a.b.c")) /\
  parse_version []
    = inl (ValueError (txt "Invalid version format: " ++ [])).
Proof.
  split; [|split]; apply parse_version_rejects; apply semver_at_None;
    vm_compute; reflexivity.
Defined.

(** The version of 4300 nines, a dot, zero, a dot, zero: the greatest
    major number that [parse_version] reads. *)
Lemma nines_semver :
  semver_text (repeat "9"%char 4300 ++ txt ".0.0")
              (repeat "9"%char 4300) (txt "0") (txt "0").
Proof.
  exists [], []. split; [reflexivity|].
  split; [split; [discriminate | vm_compute; reflexivity]|].
  split; [split; [discriminate | reflexivity]|].
  split; [split; [discriminate | reflexivity]|].
  split; left; reflexivity.
Qed.

Lemma nines_parse :
  parse_version (repeat "9"%char 4300 ++ txt ".0.0")
  = inr (Py.int_of_digits (repeat "9"%char 4300), 0%N, 0%N).
Proof.
  rewrite (parse_version_semver _ _ _ _ nines_semver);
    [reflexivity | apply Nat.leb_le; vm_compute; reflexivity ..].
Qed.

Lemma nines_next_too_long :
  ~ fits (Py.int_of_digits (repeat "9"%char 4300) + 1).
Proof. apply not_fits_ltb. vm_compute. reflexivity. Qed.

(** C3, as worded: a bump of every version that parses would return the
    text of the bumped version.  The version whose major number is 4300
    nines parses, but its major bump raises: the number one greater has
    4301 digits, more than a conversion to text accepts. *)
Lemma bump_version_limit :
  parse_version (repeat "9"%char 4300 ++ txt ".0.0")
  = inr (Py.int_of_digits (repeat "9"%char 4300), 0%N, 0%N) /\
  bump_version (repeat "9"%char 4300 ++ txt ".0.0") (txt "major")
  = inl (ValueError (Py.limit_head ++ Py.limit_tail)).
Proof.
  split; [exact nines_parse|].
  apply (bump_version_beyond _ _ _ nines_parse).
  - left. reflexivity.
  - exact nines_next_too_long.
Qed.

(** C3, amended: when the current version parses to (major, minor, patch),
    [bump_version] returns (major+1).0.0 for major, major.(minor+1).0 for
    minor and major.minor.(patch+1) for patch, provided the incremented
    number has no more than 4300 digits; when it has more, the ValueError of
    the conversion is raised; and every other kind raises the ValueError of
    an invalid bump type. *)
Theorem bump_version_spec (v : text) (major minor patch : N)
    (H : parse_version v = inr (major, minor, patch)) :
  (fits (major + 1) ->
   bump_version v (txt "major")
   = inr (Py.str_of_N (major + 1) ++ txt ".0.0")) /\
  (fits (minor + 1) ->
   bump_version v (txt "minor")
   = inr (Py.str_of_N major ++ txt "." ++ Py.str_of_N (minor + 1) ++ txt ".0")) /\
  (fits (patch + 1) ->
   bump_version v (txt "patch")
   = inr (Py.str_of_N major ++ txt "." ++ Py.str_of_N minor ++ txt "."
            ++ Py.str_of_N (patch + 1))) /\
  (~ fits (major + 1) ->
   bump_version v (txt "major")
   = inl (ValueError (Py.limit_head ++ Py.limit_tail))) /\
  (~ fits (minor + 1) ->
   bump_version v (txt "minor")
   = inl (ValueError (Py.limit_head ++ Py.limit_tail))) /\
  (~ fits (patch + 1) ->
   bump_version v (txt "patch")
   = inl (ValueError (Py.limit_head ++ Py.limit_tail))) /\
  forall kind : text,
    kind <> txt "major" -> kind <> txt "minor" -> kind <> txt "patch" ->
    bump_version v kind = inl (ValueError (txt "Invalid bump type: " ++ kind)).
Proof.
  assert (Kj : bump_kind (txt "major")) by (left; reflexivity).
  assert (Kn : bump_kind (txt "minor")) by (right; left; reflexivity).
  assert (Kp : bump_kind (txt "patch")) by (right; right; reflexivity).
  split; [|split; [|split; [|split; [|split; [|split]]]]].
  - intros F. exact (bump_version_fits _ _ _ H Kj F).
  - intros F. exact (bump_version_fits _ _ _ H Kn F).
  - intros F. exact (bump_version_fits _ _ _ H Kp F).
  - intros F. exact (bump_version_beyond _ _ _ H Kj F).
  - intros F. exact (bump_version_beyond _ _ _ H Kn F).
  - intros F. exact (bump_version_beyond _ _ _ H Kp F).
  - intros kind H1 H2 H3. rewrite (bump_version_parsed _ kind _ _ _ H).
    rewrite !text_eqb_neq by assumption. reflexivity.
Qed.

Lemma bump_version_spec_witness :
  bump_version (txt "1.2.3") (txt "major") = inr (txt "2.0.0") /\
  bump_version (txt "1.2.3") (txt "minor") = inr (txt "1.3.0") /\
  bump_version (txt "1.2.3") (txt "patch") = inr (txt "1.2.4") /\
  bump_version (txt "1.2.3") (txt "build")
    = inl (ValueError (txt "Invalid bump type: build")).
Proof.
  assert (P : parse_version (txt "1.2.3") = inr (1%N, 2%N, 3%N))
    by (vm_compute; reflexivity).
  destruct (bump_version_spec (txt "1.2.3") 1 2 3 P)
    as (H1 & H2 & H3 & _ & _ & _ & H4).
  split; [apply H1, fits_leb; vm_compute; reflexivity|].
  split; [apply H2, fits_leb; vm_compute; reflexivity|].
  split; [apply H3, fits_leb; vm_compute; reflexivity|].
  apply H4; discriminate.
Defined.

(** C4, as worded: every text that the pattern matches would be parsed and
    formatted again.  A text whose major number has 4301 digits matches the
    pattern, but [parse_version] raises on it: the conversion to a number
    accepts 4300 digits. *)
Lemma parse_version_limit :
  semver_text (repeat "1"%char 4301 ++ txt ".0.0")
              (repeat "1"%char 4301) (txt "0") (txt "0") /\
  exists msg,
    parse_version (repeat "1"%char 4301 ++ txt ".0.0") = inl (ValueError msg).
Proof.
  assert (S : semver_text (repeat "1"%char 4301 ++ txt ".0.0")
                (repeat "1"%char 4301) (txt "0") (txt "0")).
  { exists [], []. split; [reflexivity|].
    split; [split; [discriminate | vm_compute; reflexivity]|].
    split; [split; [discriminate | reflexivity]|].
    split; [split; [discriminate | reflexivity]|].
    split; left; reflexivity. }
  split; [exact S|].
  destruct (parse_version_long _ _ _ _ S) as (n & _ & E).
  - left. apply Nat.ltb_lt. vm_compute. reflexivity.
  - eexists. exact E.
Qed.

(** C4, amended: for a text the semantic-version pattern matches, with
    numbers d1, d2, d3 of no more than 4300 digits each and any accepted
    suffix, parsing keeps the three numbers only; the canonical text
    major.minor.patch of the parsed value is made of digits and dots and
    parses to the same value; and a bump gives the same result as a bump of
    that canonical text, itself the canonical text of a version when the
    bump returns: the suffix never comes back. *)
Theorem format_parse_drops_suffix (s d1 d2 d3 : text)
    (H : semver_text s d1 d2 d3)
    (L1 : length d1 <= Py.int_max_str_digits)
    (L2 : length d2 <= Py.int_max_str_digits)
    (L3 : length d3 <= Py.int_max_str_digits) :
  let v := (Py.int_of_digits d1, Py.int_of_digits d2, Py.int_of_digits d3) in
  parse_version s = inr v /\
  parse_version (format_version v) = inr v /\
  (forall c, In c (format_version v) -> Re.is_digit c = true \/ c = "."%char) /\
  (forall kind, bump_version s kind = bump_version (format_version v) kind) /\
  (forall kind out, bump_version s kind = inr out ->
     exists v', out = format_version v' /\ parse_version out = inr v').
Proof.
  intros v. pose proof (parse_version_semver _ _ _ _ H L1 L2 L3) as P.
  fold v in P.
  destruct (parse_version_inr _ _ _ _ P)
    as (_ & _ & _ & _ & _ & _ & _ & _ & _ & _ & Fa & Fb & Fc).
  pose proof (parse_format_version _ _ _ Fa Fb Fc) as Q. fold v in Q.
  split; [exact P|]. split; [exact Q|].
  split; [apply format_version_chars|]. split.
  - intros kind. subst v.
    rewrite (bump_version_parsed _ _ _ _ _ P).
    rewrite (bump_version_parsed _ _ _ _ _ Q). reflexivity.
  - intros kind out B.
    destruct (bump_version_inr _ _ _ _ P B) as (K & F & ->).
    exists (bumped v kind). split; [reflexivity|].
    exact (parse_bumped _ _ _ P F).
Qed.

Lemma format_parse_drops_suffix_witness :
  parse_version (txt "01.2.3-rc.1+build") = inr (1%N, 2%N, 3%N) /\
  bump_version (txt "01.2.3-rc.1+build") (txt "patch") = inr (txt "1.2.4").
Proof.
  assert (S : semver_text (txt "01.2.3-rc.1+build") (txt "01") (txt "2") (txt "3")).
  { exists (txt "-rc.1+build"), []. repeat split; try discriminate; auto.
    right. exists (txt "rc.1+build"). split; [reflexivity|].
    vm_compute. intuition discriminate. }
  assert (L1 : length (txt "01") <= Py.int_max_str_digits)
    by (apply Nat.leb_le; reflexivity).
  assert (L2 : length (txt "2") <= Py.int_max_str_digits)
    by (apply Nat.leb_le; reflexivity).
  assert (L3 : length (txt "3") <= Py.int_max_str_digits)
    by (apply Nat.leb_le; reflexivity).
  destruct (format_parse_drops_suffix _ _ _ _ S L1 L2 L3) as (H1 & _ & _ & H4 & _).
  split; [exact H1|]. rewrite H4. vm_compute. reflexivity.
Defined.

(** ** The manifest: reading and writing the version *)

(** C2, as worded: a manifest whose version value is not a semantic version
    would make [get_current_version] return the default, and the function
    would never fail.  The value of the first entry is returned as it is;
    and a manifest that does not decode makes the reading raise. *)
Lemma get_current_version_not_validated :
  ~ (forall (w : world ToyGit.state) content pre v tl,
       manifest w = Some (Chars content) ->
       first_version_entry content pre v tl ->
       (forall d1 d2 d3, ~ semver_text v d1 d2 d3) ->
       get_current_version w = (inr (txt "0.1.0"), w)) /\
  ~ (forall w : world ToyGit.state,
       exists v, get_current_version w = (inr v, w)).
Proof.
  split; intros C.
  - specialize (C (ToyGit.world0 (Some (version_line (txt "abc"))) None)
                  (version_line (txt "abc")) [] (txt "abc") [] eq_refl).
    rewrite get_current_version_eq in C.
    assert (F : first_version_entry (version_line (txt "abc")) [] (txt "abc") []).
    { apply PatternFacts.find_entry_Some. vm_compute. reflexivity. }
    specialize (C F (semver_at_None (txt "abc") eq_refl)).
    vm_compute in C. discriminate.
  - destruct (C (World (Some Undecodable) [] None [] [])) as (v & E).
    rewrite get_current_version_eq in E. discriminate.
Qed.

(** C2, amended: [get_current_version] leaves the world as it is.  It
    returns the default 0.1.0 when the manifest does not exist and when the
    text read from it holds no version entry; it returns the value of the
    first version entry of the text read, whatever that value is, when
    there is one; and it raises UnicodeDecodeError when the manifest does
    not decode.  The text read is the content of the file with every line
    end as a line feed. *)
Theorem get_current_version_spec {G} (w : world G) :
  (manifest w = None -> get_current_version w = (inr (txt "0.1.0"), w)) /\
  (forall content,
     manifest w = Some (Chars content) ->
     no_version_entry (universal_newlines content) ->
     get_current_version w = (inr (txt "0.1.0"), w)) /\
  (forall content pre v tl,
     manifest w = Some (Chars content) ->
     first_version_entry (universal_newlines content) pre v tl ->
     get_current_version w = (inr v, w)) /\
  (manifest w = Some Undecodable ->
   get_current_version w = (inl UnicodeDecodeError, w)).
Proof.
  rewrite get_current_version_eq. split; [|split; [|split]].
  - intros ->. reflexivity.
  - intros content -> H. apply PatternFacts.find_entry_None in H.
    rewrite H. reflexivity.
  - intros content pre v tl -> H. apply PatternFacts.find_entry_Some in H.
    rewrite H. reflexivity.
  - intros ->. reflexivity.
Qed.

Lemma get_current_version_spec_witness :
  get_current_version (ToyGit.world0 None None)
    = (inr (txt "0.1.0"), ToyGit.world0 None None) /\
  get_current_version (ToyGit.world0 (Some (txt "name = sip")) None)
    = (inr (txt "0.1.0"), ToyGit.world0 (Some (txt "name = sip")) None) /\
  get_current_version
    (ToyGit.world0
       (Some (txt "[x]" ++ carriage_return :: newline
                :: version_line (txt "1.2.3-rc1"))) None)
    = (inr (txt "1.2.3-rc1"),
       ToyGit.world0
         (Some (txt "[x]" ++ carriage_return :: newline
                  :: version_line (txt "1.2.3-rc1"))) None) /\
  get_current_version (World (Some Undecodable) [] (None : ToyGit.state) [] [])
    = (inl UnicodeDecodeError,
       World (Some Undecodable) [] (None : ToyGit.state) [] []).
Proof.
  split; [|split; [|split]].
  - apply (proj1 (get_current_version_spec (ToyGit.world0 None None))).
    reflexivity.
  - apply (proj1 (proj2 (get_current_version_spec
                           (ToyGit.world0 (Some (txt "name = sip")) None)))
             (txt "name = sip")); [reflexivity|].
    apply PatternFacts.find_entry_None. vm_compute. reflexivity.
  - apply (proj1 (proj2 (proj2 (get_current_version_spec
             (ToyGit.world0
                (Some (txt "[x]" ++ carriage_return :: newline
                         :: version_line (txt "1.2.3-rc1"))) None))))
             (txt "[x]" ++ carriage_return :: newline
                :: version_line (txt "1.2.3-rc1"))
             (txt "[x]" ++ [newline]) (txt "1.2.3-rc1") []); [reflexivity|].
    apply PatternFacts.find_entry_Some. vm_compute. reflexivity.
  - apply (proj2 (proj2 (proj2 (get_current_version_spec
             (World (Some Undecodable) [] (None : ToyGit.state) [] []))))).
    reflexivity.
Defined.

Lemma update_version_file_absent {G} (new_version : text) (w : world G) :
  manifest w = None ->
  update_version_file new_version w =
  (inr tt,
   World None (environ w) (tool w)
     (stdout w ++
      [Line (txt "Warning: pyproject.toml not found, skipping version update")])
     (calls w)).
Proof.
  intros H. unfold update_version_file, bind, path_exists, print.
  rewrite H. cbn [negb]. rewrite H. reflexivity.
Qed.

(** C9: without a manifest, [update_version_file] returns normally after
    printing its warning; the manifest still does not exist and nothing else
    of the world has changed. *)
Theorem update_version_file_missing {G} (new_version : text) (w : world G)
    (H : manifest w = None) :
  update_version_file new_version w =
  (inr tt,
   World None (environ w) (tool w)
     (stdout w ++
      [Line (txt "Warning: pyproject.toml not found, skipping version update")])
     (calls w)).
Proof.
  apply update_version_file_absent. exact H.
Qed.

Lemma update_version_file_missing_witness :
  update_version_file (txt "1.0.1") (ToyGit.world0 None (Some [])) =
  (inr tt,
   World None [] (Some [])
     [Line (txt "Warning: pyproject.toml not found, skipping version update")]
     []).
Proof.
  apply (update_version_file_missing (txt "1.0.1") (ToyGit.world0 None (Some []))).
  reflexivity.
Defined.

(** C1: the claim asks for one substitution, of the first version entry, and
    [get_current_version] reads the first entry only; but
    [update_version_file] substitutes without a count.  On a manifest that
    also sets python_version, a text that ends in a version entry, the
    version read is 1.0.0 and the writing of 1.0.1 replaces both values:
    the setting python_version is rewritten to 1.0.1 as well. *)
Theorem update_version_file_rewrites_other_settings :
  let before :=
    txt "[project]" ++ newline :: version_line (txt "1.0.0")
      ++ newline :: txt "[tool.mypy]" ++ newline
      :: txt "python_" ++ version_line (txt "3.11") ++ [newline] in
  let after :=
    txt "[project]" ++ newline :: version_line (txt "1.0.1")
      ++ newline :: txt "[tool.mypy]" ++ newline
      :: txt "python_" ++ version_line (txt "1.0.1") ++ [newline] in
  get_current_version (ToyGit.world0 (Some before) None)
  = (inr (txt "1.0.0"), ToyGit.world0 (Some before) None) /\
  update_version_file (txt "1.0.1") (ToyGit.world0 (Some before) None)
  = (inr tt,
     World (Some (Chars after)) [] None
       [Line (txt "Updated version in pyproject.toml to 1.0.1")] []).
Proof.
  split; vm_compute; reflexivity.
Qed.

(** C10, as worded: a manifest without version entry would always be
    rewritten with success.  A new version that makes a bad replacement
    template stops the function before anything is written. *)
Lemma update_version_file_bad_template :
  no_version_entry (txt "name = sip") /\
  update_version_file [backslash; "1"%char]
    (ToyGit.world0 (Some (txt "name = sip")) None)
  = (inl TemplateError, ToyGit.world0 (Some (txt "name = sip")) None).
Proof.
  split.
  - apply PatternFacts.find_entry_None. vm_compute. reflexivity.
  - vm_compute. reflexivity.
Qed.

(** C10, amended: on an existing manifest that decodes to a text without
    version entry, and for a new version whose replacement text is a good
    template (every text without backslash is), [update_version_file]
    returns normally, writes back the very text it read and prints the
    usual message of success.  The text read is the content of the file
    with every line end as a line feed: the content itself when the file
    holds no carriage return. *)
Theorem update_version_file_no_entry {G} (w : world G)
    (content new_version : text) (tpl : list Re.titem)
    (Hm : manifest w = Some (Chars content))
    (Ht : Re.compile_template (version_line new_version) = Some tpl)
    (Hn : no_version_entry (universal_newlines content)) :
  update_version_file new_version w =
  (inr tt,
   World (Some (Chars (universal_newlines content))) (environ w) (tool w)
     (stdout w ++
      [Line (txt "Updated version in pyproject.toml to " ++ new_version)])
     (calls w)) /\
  (~ In carriage_return content -> universal_newlines content = content).
Proof.
  split; [|apply NewlineFacts.universal_newlines_plain].
  rewrite (update_version_file_existing _ _ _ _ Hm Ht).
  rewrite PatternFacts.sub_loop_version_no_entry by exact Hn. reflexivity.
Qed.

Lemma update_version_file_no_entry_witness :
  update_version_file (txt "2.0.0")
    (ToyGit.world0 (Some (txt "name = sip" ++ [carriage_return; newline])) None) =
  (inr tt,
   World (Some (Chars (txt "name = sip" ++ [newline]))) [] None
     [Line (txt "Updated version in pyproject.toml to 2.0.0")] []).
Proof.
  assert (N : no_version_entry
                (universal_newlines
                   (txt "name = sip" ++ [carriage_return; newline])))
    by (apply PatternFacts.find_entry_None; vm_compute; reflexivity).
  apply (proj1 (update_version_file_no_entry
           (ToyGit.world0
              (Some (txt "name = sip" ++ [carriage_return; newline])) None)
           (txt "name = sip" ++ [carriage_return; newline]) (txt "2.0.0")
           (Re.literal_template (version_line (txt "2.0.0")))
           eq_refl eq_refl N)).
Defined.

(** ** Image references *)

Lemma environ_get_unset (env : list (text * text)) (key default : text) :
  env_unset env key -> environ_get env key default = default.
Proof.
  induction env as [|[k v] env IH]; intros U; [reflexivity|].
  cbn [environ_get]. destruct (text_eqb k key) eqn:E.
  - apply text_eqb_eq in E. subst k. exfalso. apply (U v). left. reflexivity.
  - apply IH. intros value Hin. apply (U value). right. exact Hin.
Qed.

Lemma environ_get_binds (env : list (text * text)) (key value default : text) :
  env_binds env key value -> environ_get env key default = value.
Proof.
  intros (before & after & -> & U).
  induction before as [|[k v] before IH]; cbn [app environ_get].
  - rewrite text_eqb_refl. reflexivity.
  - destruct (text_eqb k key) eqn:E.
    + apply text_eqb_eq in E. subst k. exfalso. apply (U v). left. reflexivity.
    + apply IH. intros x Hin. apply (U x). right. exact Hin.
Qed.

Lemma env_unset_or_binds (env : list (text * text)) (key : text) :
  env_unset env key \/ exists value, env_binds env key value.
Proof.
  induction env as [|[k v] env IH].
  - left. intros value [].
  - destruct (text_eqb k key) eqn:E.
    + apply text_eqb_eq in E. subst k. right. exists v, [], env.
      split; [reflexivity | intros value []].
    + assert (N : k <> key)
        by (intros ->; rewrite text_eqb_refl in E; discriminate).
      destruct IH as [U|(value & before & after & -> & U)].
      * left. intros value [D|Hin]; [congruence | exact (U value Hin)].
      * right. exists value, ((k, v) :: before), after.
        split; [reflexivity|].
        intros x [D|Hin]; [congruence | exact (U x Hin)].
Qed.

(** C5: [get_docker_images_info] never raises and leaves the world as it
    is.  With the repository name that the environment gives (the value of
    the variable GITHUB_REPOSITORY when it is set, sip-ai-agent when it is
    not), the dict it returns holds the registry ghcr.io, that name, the
    version, and as images exactly the four references built from them. *)
Theorem get_docker_images_info_spec {G} (version : text) (w : world G) :
  exists repo,
    ((exists value,
        env_binds (environ w) (txt "GITHUB_REPOSITORY") value /\ repo = value)
     \/ (env_unset (environ w) (txt "GITHUB_REPOSITORY")
         /\ repo = txt "sip-ai-agent")) /\
    get_docker_images_info version w =
    (inr (VDict
       [(txt "registry", VStr (txt "ghcr.io"));
        (txt "repository", VStr repo);
        (txt "version", VStr version);
        (txt "images", VDict
           [(txt "sip_agent",
               VStr (txt "ghcr.io/" ++ repo ++ txt ":" ++ version));
            (txt "sip_agent_latest",
               VStr (txt "ghcr.io/" ++ repo ++ txt ":latest"));
            (txt "web_ui",
               VStr (txt "ghcr.io/" ++ repo ++ txt "-web:" ++ version));
            (txt "web_ui_latest",
               VStr (txt "ghcr.io/" ++ repo ++ txt "-web:latest"))])]),
     w).
Proof.
  exists (environ_get (environ w) (txt "GITHUB_REPOSITORY") (txt "sip-ai-agent")).
  split; [|reflexivity].
  destruct (env_unset_or_binds (environ w) (txt "GITHUB_REPOSITORY"))
    as [U|(value & B)].
  - right. split; [exact U | apply environ_get_unset; exact U].
  - left. exists value. split; [exact B|]. apply environ_get_binds. exact B.
Qed.

Lemma get_docker_images_info_spec_witness :
  dict_get
    match fst (get_docker_images_info (txt "1.3.0")
                 (World None [(txt "GITHUB_REPOSITORY", txt "acme/widgets")]
                        (None : ToyGit.state) [] [])) with
    | inr (VDict items) => items
    | _ => []
    end (txt "images") =
  Some (VDict
    [(txt "sip_agent", VStr (txt "ghcr.io/acme/widgets:1.3.0"));
     (txt "sip_agent_latest", VStr (txt "ghcr.io/acme/widgets:latest"));
     (txt "web_ui", VStr (txt "ghcr.io/acme/widgets-web:1.3.0"));
     (txt "web_ui_latest", VStr (txt "ghcr.io/acme/widgets-web:latest"))]).
Proof.
  destruct (get_docker_images_info_spec (txt "1.3.0")
              (World None [(txt "GITHUB_REPOSITORY", txt "acme/widgets")]
                     (None : ToyGit.state) [] []))
    as (repo & [(value & (before & after & E & U) & ->)|(U & ->)] & R).
  - rewrite R. cbn [environ] in E.
    destruct before as [|x before]; cbn [app] in E.
    + inversion E; subst. reflexivity.
    + inversion E as [[Ex Eb]]. destruct before; discriminate Eb.
  - exfalso. apply (U (txt "acme/widgets")). left. reflexivity.
Defined.

(** ** Tags *)

Module TagFacts.

Lemma existsb_rev {A} (f : A -> bool) (l : list A) :
  existsb f (rev l) = existsb f l.
Proof.
  induction l as [|a l IH]; [reflexivity|].
  cbn [rev]. rewrite existsb_app, IH. cbn [existsb].
  rewrite orb_false_r. apply orb_comm.
Qed.

Lemma truthy_lstrip (s : text) :
  Py.truthy (Py.lstrip s) = existsb (fun c => negb (Py.isspace c)) s.
Proof.
  induction s as [|c s IH]; [reflexivity|].
  cbn [Py.lstrip existsb]. destruct (Py.isspace c); [exact IH | reflexivity].
Qed.

Lemma existsb_lstrip (s : text) :
  existsb (fun c => negb (Py.isspace c)) (Py.lstrip s)
  = existsb (fun c => negb (Py.isspace c)) s.
Proof.
  induction s as [|c s IH]; [reflexivity|].
  cbn [Py.lstrip]. destruct (Py.isspace c) eqn:E.
  - cbn [existsb]. rewrite E. exact IH.
  - reflexivity.
Qed.

Lemma truthy_rev (s : text) : Py.truthy (rev s) = Py.truthy s.
Proof.
  destruct s as [|a s]; [reflexivity|]. cbn [rev].
  destruct (rev s); reflexivity.
Qed.

(** A stripped string is true when the string has a character that is not
    white space. *)
Lemma truthy_strip (s : text) :
  Py.truthy (Py.strip s) = existsb (fun c => negb (Py.isspace c)) s.
Proof.
  unfold Py.strip.
  rewrite truthy_rev, truthy_lstrip, existsb_rev, existsb_lstrip. reflexivity.
Qed.

Lemma count_creates_app (l : list (list text * Z)) cmd rc :
  count_creates (l ++ [(cmd, rc)])
  = count_creates l + (if is_tag_create cmd then 1 else 0).
Proof.
  unfold count_creates. rewrite filter_app, length_app. cbn [filter fst].
  destruct (is_tag_create cmd); reflexivity.
Qed.

Lemma is_tag_create_list (name : text) : is_tag_create (tag_list_cmd name) = false.
Proof. reflexivity. Qed.

Lemma is_tag_create_create (name m : text) :
  is_tag_create (tag_create_cmd name m) = true.
Proof. reflexivity. Qed.

(** [create_git_tag], by cases on what the tool answers. *)
Lemma create_git_tag_eq {G} `{Subprocess G} (version : text)
    (message : option text) (w : world G) :
  create_git_tag version message w =
  let tag_name := txt "v" ++ version in
  let tag_message := Py.or_default message (txt "Release version " ++ version) in
  let '((rc, out), g1) := run (tag_list_cmd tag_name) (tool w) in
  let log1 := calls w ++ [(tag_list_cmd tag_name, rc)] in
  if (rc =? 0)%Z then
    if Py.truthy (Py.strip out) then
      (inr tt,
       World (manifest w) (environ w) g1
         (stdout w ++ [Line (txt "Tag " ++ tag_name ++ txt " already exists")])
         log1)
    else
      let '((rc2, out2), g2) := run (tag_create_cmd tag_name tag_message) g1 in
      let log2 := log1 ++ [(tag_create_cmd tag_name tag_message, rc2)] in
      if (rc2 =? 0)%Z then
        (inr tt,
         World (manifest w) (environ w) g2
           (stdout w ++ [Line (txt "Created tag " ++ tag_name)]) log2)
      else
        (inl (SystemExit 1),
         World (manifest w) (environ w) g2
           (stdout w ++ [ErrLine (txt "Error creating git tag: ")
                           (tag_create_cmd tag_name tag_message) rc2]) log2)
  else
    (inl (SystemExit 1),
     World (manifest w) (environ w) g1
       (stdout w ++ [ErrLine (txt "Error creating git tag: ")
                       (tag_list_cmd tag_name) rc]) log1).
Proof.
  unfold create_git_tag, try_except_CalledProcessError, bind, subprocess_run,
    print, raise.
  cbv zeta. cbn [tool manifest environ stdout calls].
  destruct (run (tag_list_cmd (txt "v" ++ version)) (tool w)) as [[rc out] g1].
  destruct (rc =? 0)%Z; [|reflexivity].
  cbn [snd]. destruct (Py.truthy (Py.strip out)); [reflexivity|].
  cbn [tool manifest environ stdout calls].
  destruct (run _ g1) as [[rc2 out2] g2].
  destruct (rc2 =? 0)%Z; reflexivity.
Qed.

Lemma push_tag_eq {G} `{Subprocess G} (version : text) (w : world G) :
  push_tag version w =
  let tag_name := txt "v" ++ version in
  let '((rc, out), g1) := run (tag_push_cmd tag_name) (tool w) in
  let log1 := calls w ++ [(tag_push_cmd tag_name, rc)] in
  if (rc =? 0)%Z then
    (inr tt,
     World (manifest w) (environ w) g1
       (stdout w ++ [Line (txt "Pushed tag " ++ tag_name ++ txt " to remote")])
       log1)
  else
    (inl (SystemExit 1),
     World (manifest w) (environ w) g1
       (stdout w ++ [ErrLine (txt "Error pushing tag: ")
                       (tag_push_cmd tag_name) rc]) log1).
Proof.
  unfold push_tag, try_except_CalledProcessError, bind, subprocess_run,
    print, raise.
  cbv zeta. cbn [tool manifest environ stdout calls].
  destruct (run (tag_push_cmd (txt "v" ++ version)) (tool w)) as [[rc out] g1].
  destruct (rc =? 0)%Z; reflexivity.
Qed.

(** The model of git keeps its tags. *)
Lemma toy_keeps_tags : tool_keeps_tags ToyGit.state.
Proof.
  intros g name msg out g1 Hc out' g2 Hl.
  destruct g as [tags|]; [|discriminate].
  cbn in Hc.
  destruct (ToyGit.has_tag name tags || negb (Py.truthy (Py.strip name))) eqn:E;
    [discriminate|].
  apply orb_false_iff in E as [_ E]. apply negb_false_iff in E.
  inversion Hc; subst; clear Hc.
  cbn in Hl. unfold ToyGit.has_tag in Hl. cbn [existsb] in Hl.
  rewrite text_eqb_refl in Hl. cbn [orb] in Hl.
  inversion Hl; subst; clear Hl.
  rewrite truthy_strip in *. rewrite existsb_app, E. reflexivity.
Qed.





End TagFacts.

Import TagFacts.

(** C6: when the listing of the tag succeeds and prints something,
    [create_git_tag] prints its notice and returns; the listing is the only
    command it has run, so no tag has been created.  With a tool that keeps
    its tags, two calls in a row for the same version run the creation
    command at most once. *)
Theorem create_git_tag_idempotent {G} `{Subprocess G} :
  (forall version message (w : world G) out g1,
     run (tag_list_cmd (txt "v" ++ version)) (tool w) = ((0%Z, out), g1) ->
     Py.truthy (Py.strip out) = true ->
     create_git_tag version message w =
     (inr tt,
      World (manifest w) (environ w) g1
        (stdout w ++
         [Line (txt "Tag " ++ (txt "v" ++ version) ++ txt " already exists")])
        (calls w ++ [(tag_list_cmd (txt "v" ++ version), 0%Z)])) /\
     count_creates (calls (snd (create_git_tag version message w)))
     = count_creates (calls w)) /\
  (tool_keeps_tags G ->
   forall version message1 message2 (w : world G),
     count_creates
       (calls (snd ((create_git_tag version message1 ;;
                     create_git_tag version message2) w)))
     <= count_creates (calls w) + 1).
Proof.
  split.
  - intros version message w out g1 Hl Ht.
    rewrite create_git_tag_eq. cbv zeta. rewrite Hl. cbn [Z.eqb]. rewrite Ht.
    split; [reflexivity|]. cbn [snd calls].
    rewrite count_creates_app, is_tag_create_list. lia.
  - intros Hk version m1 m2 w. unfold bind.
    rewrite create_git_tag_eq. cbv zeta.
    destruct (run (tag_list_cmd (txt "v" ++ version)) (tool w))
      as [[rc out] g1] eqn:L1.
    destruct (Z.eqb_spec rc 0) as [->|Hrc].
    + destruct (Py.truthy (Py.strip out)).
      * (* the tag was there: nothing created by the first call *)
        rewrite create_git_tag_eq. cbv zeta. cbn [tool calls manifest environ stdout].
        destruct (run (tag_list_cmd (txt "v" ++ version)) g1) as [[rc' out'] g1'].
        destruct (rc' =? 0)%Z.
        -- destruct (Py.truthy (Py.strip out')).
           ++ cbn [snd calls]. rewrite !count_creates_app, is_tag_create_list. lia.
           ++ destruct (run _ g1') as [[rc2 out2] g2].
              destruct (rc2 =? 0)%Z; cbn [snd calls];
                rewrite !count_creates_app, is_tag_create_list,
                  is_tag_create_create; lia.
        -- cbn [snd calls]. rewrite !count_creates_app, is_tag_create_list. lia.
      * (* the first call creates the tag *)
        destruct (run (tag_create_cmd _ _) g1) as [[rc2 out2] g2] eqn:C1.
        destruct (Z.eqb_spec rc2 0) as [->|Hrc2].
        -- rewrite create_git_tag_eq. cbv zeta.
           cbn [tool calls manifest environ stdout].
           destruct (run (tag_list_cmd (txt "v" ++ version)) g2)
             as [[rc' out'] g3] eqn:L2.
           destruct (Z.eqb_spec rc' 0) as [->|Hrc'].
           ++ rewrite (Hk _ _ _ _ _ C1 _ _ L2). cbn [snd calls].
              rewrite !count_creates_app, is_tag_create_list,
                is_tag_create_create. lia.
           ++ cbn [snd calls].
              rewrite !count_creates_app, is_tag_create_list,
                is_tag_create_create. lia.
        -- cbn [snd calls].
           rewrite !count_creates_app, is_tag_create_list, is_tag_create_create.
           lia.
    + cbn [snd calls]. rewrite count_creates_app, is_tag_create_list. lia.
Qed.

Lemma create_git_tag_idempotent_witness :
  create_git_tag (txt "9.9.9") None
    (ToyGit.world0 None (Some [txt "v9.9.9"]))
  = (inr tt,
     World None [] (Some [txt "v9.9.9"])
       [Line (txt "Tag v9.9.9 already exists")]
       [(tag_list_cmd (txt "v9.9.9"), 0%Z)]) /\
  count_creates
    (calls (snd ((create_git_tag (txt "1.0.0") None ;;
                  create_git_tag (txt "1.0.0") None)
                   (ToyGit.world0 None (Some [])))))
  <= 0 + 1.
Proof.
  destruct (@create_git_tag_idempotent ToyGit.state ToyGit.subprocess)
    as [P1 P2].
  split.
  - apply (P1 (txt "9.9.9") None (ToyGit.world0 None (Some [txt "v9.9.9"]))
              (txt "v9.9.9" ++ [newline]) (Some [txt "v9.9.9"]));
      reflexivity.
  - apply (P2 toy_keeps_tags (txt "1.0.0") None None
              (ToyGit.world0 None (Some []))).
Defined.

(** ** The command line *)


Lemma readable_dec {G} (w : world G) :
  manifest w = Some Undecodable \/ manifest w <> Some Undecodable.
Proof.
  destruct (manifest w) as [[c|]|];
    [right; discriminate | left; reflexivity | right; discriminate].
Qed.


Lemma get_current_version_mv {G} (w : world G) :
  manifest w <> Some Undecodable ->
  get_current_version w = (inr (manifest_version w), w).
Proof.
  intros R. unfold manifest_version. rewrite get_current_version_eq.
  destruct (manifest w) as [[content|]|]; [reflexivity | contradiction |
                                           reflexivity].
Qed.

Lemma get_current_version_undecodable {G} (w : world G) :
  manifest w = Some Undecodable ->
  get_current_version w = (inl UnicodeDecodeError, w).
Proof. intros U. rewrite get_current_version_eq, U. reflexivity. Qed.










(** * Further properties of the script *)

(** ** Writing the version, then reading it *)

Module EntryFacts.
Import PatternFacts ScriptFacts NewlineFacts.

Lemma split_first_dquote (l : text) :
  ~ In dquote l \/ exists a b, l = a ++ dquote :: b /\ ~ In dquote a.
Proof.
  induction l as [|c l IH].
  - left. intros [].
  - destruct (Ascii.eqb_spec c dquote) as [->|Hc].
    + right. exists [], l. split; [reflexivity | intros []].
    + destruct IH as [IH|(a & b & -> & Ha)].
      * left. intros [E|E]; [congruence | contradiction].
      * right. exists (c :: a), b. split; [reflexivity|].
        intros [E|E]; [congruence | contradiction].
Qed.

Lemma first_dquote_unique (a b x y : text) :
  ~ In dquote a -> ~ In dquote b ->
  a ++ dquote :: x = b ++ dquote :: y -> a = b /\ x = y.
Proof.
  revert b. induction a as [|c a IH]; intros b Ha Hb E.
  - destruct b as [|d b]; cbn [app] in E.
    + inversion E. auto.
    + inversion E; subst. exfalso. apply Hb. left. reflexivity.
  - destruct b as [|d b]; cbn [app] in E.
    + inversion E; subst. exfalso. apply Ha. left. reflexivity.
    + inversion E; subst.
      destruct (IH b) as [-> ->]; auto.
      * intros H. apply Ha. right. exact H.
      * intros H. apply Hb. right. exact H.
Qed.

Lemma starts_version_entry_shape (s : text) :
  starts_version_entry s <->
  exists v tl, s = txt "version = " ++ dquote :: v ++ dquote :: tl /\
               v <> [] /\ ~ In dquote v.
Proof.
  unfold starts_version_entry. split; intros (v & tl & E & H).
  - exists v, tl. rewrite <- version_line_app. auto.
  - exists v, tl. rewrite version_line_app. auto.
Qed.

Lemma key_no_dquote : ~ In dquote (txt "version = ").
Proof. vm_compute. intuition discriminate. Qed.

(** Whether an entry begins in front of the words version = and their
    double quote does not depend on what follows that quote. *)
Lemma entry_in_front (p r1 r2 : text) :
  p <> [] ->
  starts_version_entry (p ++ txt "version = " ++ dquote :: r2) ->
  starts_version_entry (p ++ txt "version = " ++ dquote :: r1).
Proof.
  intros Hp H. apply starts_version_entry_shape in H as (v & tl & E & Hv & Hq).
  apply starts_version_entry_shape.
  destruct (split_first_dquote p) as [Np|(a & b & -> & Na)].
  - (* no quote in p: the first quote of both sides gives p ++ key = key *)
    exfalso. rewrite app_assoc in E.
    destruct (first_dquote_unique (p ++ txt "version = ") (txt "version = ")
                r2 (v ++ dquote :: tl)) as [E1 _]; auto using key_no_dquote.
    + intros H. apply in_app_or in H as [H|H];
        [contradiction | exact (key_no_dquote H)].
    + apply (f_equal (@length ascii)) in E1. rewrite length_app in E1.
      destruct p; [contradiction | simpl in E1; lia].
  - rewrite <- app_assoc in E. cbn [app] in E.
    destruct (first_dquote_unique a (txt "version = ")
                (b ++ txt "version = " ++ dquote :: r2) (v ++ dquote :: tl))
      as [-> E2]; auto using key_no_dquote.
    destruct (split_first_dquote b) as [Nb|(c & d & -> & Nc)].
    + rewrite app_assoc in E2.
      destruct (first_dquote_unique (b ++ txt "version = ") v r2 tl)
        as [<- <-]; auto.
      { intros H. apply in_app_or in H as [H|H];
          [contradiction | exact (key_no_dquote H)]. }
      exists (b ++ txt "version = "), r1. split; [|split].
      * repeat (rewrite <- app_assoc || rewrite <- app_comm_cons). reflexivity.
      * exact Hv.
      * exact Hq.
    + rewrite <- app_assoc in E2. cbn [app] in E2.
      destruct (first_dquote_unique c v
                  (d ++ txt "version = " ++ dquote :: r2) tl)
        as [<- _]; auto.
      exists c, (d ++ txt "version = " ++ dquote :: r1). split; [|split].
      * repeat (rewrite <- app_assoc || rewrite <- app_comm_cons). reflexivity.
      * exact Hv.
      * exact Hq.
Qed.

(** The entry that replaces the first entry is the first entry of the new
    content. *)
Lemma first_entry_replaced (content pre v tl new tl' : text) :
  first_version_entry content pre v tl ->
  new <> [] -> ~ In dquote new ->
  first_version_entry (pre ++ version_line new ++ tl') pre new tl'.
Proof.
  intros (_ & _ & _ & F) Hn Hq. split; [reflexivity|].
  split; [exact Hn|]. split; [exact Hq|].
  intros p1 p2 Ep Hp H. apply (F p1 p2 Ep Hp).
  rewrite version_line_app in *.
  eapply entry_in_front; eauto.
Qed.

Lemma ReplacedAll_head (new s u pre v tl : text) :
  ReplacedAll new s u -> first_version_entry s pre v tl ->
  exists tl', u = pre ++ version_line new ++ tl' /\ ReplacedAll new tl tl'.
Proof.
  intros R F. inversion R as [s0 Hn | s0 pre0 v0 tl0 tl0' F0 R0]; subst.
  - exfalso. eapply first_not_none; eauto.
  - apply find_entry_Some in F, F0. rewrite F in F0. inversion F0; subst.
    eauto.
Qed.

(** A substitution brings in no carriage return but those of the new
    version. *)
Lemma ReplacedAll_no_cr (new s u : text) :
  ReplacedAll new s u -> ~ In carriage_return s -> ~ In carriage_return new ->
  ~ In carriage_return u.
Proof.
  intros R. induction R as [s Hs | s pre v tl tl' F R IH]; intros Hs' Hn;
    [exact Hs'|].
  destruct F as (-> & _). intros Hin.
  apply in_app_or in Hin as [Hin|Hin].
  - apply Hs'. apply in_or_app. left. exact Hin.
  - apply in_app_or in Hin as [Hin|Hin].
    + unfold version_line in Hin. apply in_app_or in Hin as [Hin|Hin];
        [revert Hin; vm_compute; intuition discriminate|].
      destruct Hin as [Hin|Hin]; [discriminate|].
      apply in_app_or in Hin as [Hin|[Hin|[]]]; [contradiction | discriminate].
    + apply IH; [|exact Hn | exact Hin].
      intros X. apply Hs'. apply in_or_app. right. apply in_or_app. right.
      exact X.
Qed.

(** What a substitution wrote, read again, is turned by a second
    substitution of the same version into what was written: the entries of
    the new version are found again where they were written, also when
    the new version holds line ends that the reading translates. *)
Lemma ReplacedAll_reread (new s u : text) :
  new <> [] -> ~ In dquote new ->
  ReplacedAll new s u -> ~ In carriage_return s ->
  ReplacedAll new (universal_newlines u) u.
Proof.
  intros Hn Hq R. induction R as [s Hs | s pre v tl tl' F R IH]; intros Hc.
  - rewrite universal_newlines_plain by exact Hc. apply RA_done. exact Hs.
  - pose proof F as (E & _). subst s.
    assert (Cp : ~ In carriage_return pre)
      by (intros X; apply Hc; apply in_or_app; left; exact X).
    assert (Ct : ~ In carriage_return tl)
      by (intros X; apply Hc; apply in_or_app; right; apply in_or_app; right;
          exact X).
    assert (E : universal_newlines (pre ++ version_line new ++ tl')
                = pre ++ version_line (universal_newlines new)
                    ++ universal_newlines tl').
    { change (version_line new ++ tl')
        with ("v"%char :: (txt "ersion = " ++ dquote :: new ++ [dquote]) ++ tl').
      rewrite universal_newlines_cut by discriminate.
      rewrite (universal_newlines_plain pre Cp).
      change ("v"%char :: (txt "ersion = " ++ dquote :: new ++ [dquote]) ++ tl')
        with (version_line new ++ tl').
      rewrite universal_newlines_version_line. reflexivity. }
    rewrite E.
    apply RA_step with (v := universal_newlines new)
                       (tl := universal_newlines tl'); [|exact (IH Ct)].
    eapply first_entry_replaced;
      [exact F | apply universal_newlines_nonempty; exact Hn
       | apply universal_newlines_no_dquote; exact Hq].
Qed.

Lemma update_version_file_literal {G} (new content : text) (w : world G) :
  manifest w = Some (Chars content) -> ~ In backslash new ->
  exists updated,
    update_version_file new w =
    (inr tt,
     World (Some (Chars updated)) (environ w) (tool w)
       (stdout w ++ [Line (txt "Updated version in pyproject.toml to " ++ new)])
       (calls w)) /\
    ReplacedAll new (universal_newlines content) updated.
Proof.
  intros Hm Hb.
  pose proof (no_backslash_compile _ (version_line_no_backslash _ Hb)) as Ht.
  eexists. split; [apply (update_version_file_existing _ _ _ _ Hm Ht)|].
  apply sub_loop_version_literal. lia.
Qed.

Lemma find_entry_after_update (new content u pre v tl : text) :
  ReplacedAll new content u -> first_version_entry content pre v tl ->
  new <> [] -> ~ In dquote new ->
  exists tl', find_entry u = Some (pre, new, tl').
Proof.
  intros R F Hn Hq.
  destruct (ReplacedAll_head _ _ _ _ _ _ R F) as (tl' & -> & _).
  exists tl'. apply find_entry_Some. eapply first_entry_replaced; eauto.
Qed.

Lemma format_version_nonempty (v : N * N * N) : format_version v <> [].
Proof.
  destruct v as [[a b] c]. unfold format_version.
  destruct (PyFacts.str_of_N_digits a) as [Ha _].
  destruct (Py.str_of_N a); [contradiction | discriminate].
Qed.

Lemma format_version_no_dquote (v : N * N * N) :
  ~ In dquote (format_version v).
Proof.
  intros Hin. apply format_version_chars in Hin as [Hd|Hd]; discriminate.
Qed.

Lemma format_version_plain (v : N * N * N) :
  ~ In backslash (format_version v).
Proof.
  intros Hin. apply format_version_chars in Hin as [Hd|Hd]; discriminate.
Qed.

Lemma format_version_no_cr (v : N * N * N) :
  ~ In carriage_return (format_version v).
Proof.
  intros Hin. apply format_version_chars in Hin as [Hd|Hd]; discriminate.
Qed.

(** After the writing of a version without carriage return, the version
    read is the version written. *)
Lemma read_written {G} (w : world G) (content pre v tl new u : text) :
  first_version_entry (universal_newlines content) pre v tl ->
  new <> [] -> ~ In dquote new -> ~ In carriage_return new ->
  ReplacedAll new (universal_newlines content) u ->
  manifest w = Some (Chars u) ->
  get_current_version w = (inr new, w).
Proof.
  intros Hf Hn Hq Hc R Hm.
  destruct (find_entry_after_update _ _ _ _ _ _ R Hf Hn Hq) as (tl' & F).
  rewrite get_current_version_eq, Hm.
  rewrite universal_newlines_plain
    by (eapply ReplacedAll_no_cr; eauto using universal_newlines_no_cr).
  rewrite F. reflexivity.
Qed.

End EntryFacts.

Import EntryFacts.

(** X1: after [update_version_file] has written a new version (not empty,
    without double quote, backslash or carriage return) into a manifest
    whose text holds a version entry, [get_current_version] returns that
    new version. *)
Theorem read_after_update {G} (w : world G) (content pre v tl new : text)
    (Hm : manifest w = Some (Chars content))
    (Hf : first_version_entry (universal_newlines content) pre v tl)
    (Hn : new <> []) (Hq : ~ In dquote new) (Hb : ~ In backslash new)
    (Hc : ~ In carriage_return new) :
  fst (update_version_file new w) = inr tt /\
  get_current_version (snd (update_version_file new w))
  = (inr new, snd (update_version_file new w)).
Proof.
  destruct (update_version_file_literal new content w Hm Hb) as (u & E & R).
  rewrite E. cbn [fst snd]. split; [reflexivity|].
  eapply read_written; eauto.
Qed.

Lemma read_after_update_witness :
  get_current_version
    (snd (update_version_file (txt "2.0.0")
            (ToyGit.world0
               (Some (txt "[p]" ++ carriage_return :: newline
                        :: version_line (txt "1.0.0"))) None)))
  = (inr (txt "2.0.0"),
     snd (update_version_file (txt "2.0.0")
            (ToyGit.world0
               (Some (txt "[p]" ++ carriage_return :: newline
                        :: version_line (txt "1.0.0"))) None))).
Proof.
  assert (F : first_version_entry
                (universal_newlines
                   (txt "[p]" ++ carriage_return :: newline
                      :: version_line (txt "1.0.0")))
                (txt "[p]" ++ [newline]) (txt "1.0.0") [])
    by (apply PatternFacts.find_entry_Some; vm_compute; reflexivity).
  assert (Hn : txt "2.0.0" <> []) by discriminate.
  assert (Hq : ~ In dquote (txt "2.0.0")) by (vm_compute; intuition discriminate).
  assert (Hb : ~ In backslash (txt "2.0.0"))
    by (vm_compute; intuition discriminate).
  assert (Hc : ~ In carriage_return (txt "2.0.0"))
    by (vm_compute; intuition discriminate).
  apply (proj2 (read_after_update
           (ToyGit.world0
              (Some (txt "[p]" ++ carriage_return :: newline
                       :: version_line (txt "1.0.0"))) None)
           (txt "[p]" ++ carriage_return :: newline
              :: version_line (txt "1.0.0"))
           (txt "[p]" ++ [newline]) (txt "1.0.0") []
           (txt "2.0.0") eq_refl F Hn Hq Hb Hc)).
Defined.

(** X2: writing the same version (not empty, without double quote or
    backslash) twice leaves the manifest as the first writing left it; and
    both writings return, unless the manifest does not decode: then the
    first reading raises and nothing is written. *)
Theorem update_twice {G} (w : world G) (new : text)
    (Hn : new <> []) (Hq : ~ In dquote new) (Hb : ~ In backslash new) :
  (manifest w <> Some Undecodable ->
   fst ((update_version_file new ;; update_version_file new) w) = inr tt) /\
  manifest (snd ((update_version_file new ;; update_version_file new) w))
  = manifest (snd (update_version_file new w)) /\
  (manifest w = Some Undecodable ->
   fst ((update_version_file new ;; update_version_file new) w)
   = inl UnicodeDecodeError).
Proof.
  unfold bind. destruct (manifest w) as [[content|]|] eqn:Hm.
  - destruct (update_version_file_literal new content w Hm Hb) as (u & E & R).
    rewrite E. cbn [snd manifest].
    match goal with
    | |- context [update_version_file new ?w1] =>
        destruct (update_version_file_literal new u w1 eq_refl Hb)
          as (u2 & E2 & R2); rewrite E2
    end.
    cbn [fst snd manifest].
    split; [reflexivity|]. split; [|discriminate]. do 2 f_equal.
    eapply ScriptFacts.ReplacedAll_unique; [exact R2|].
    eapply ReplacedAll_reread; eauto.
    apply NewlineFacts.universal_newlines_no_cr.
  - rewrite (update_version_file_undecodable new w Hm). cbn [fst snd].
    split; [contradiction|]. split; reflexivity.
  - rewrite (update_version_file_absent new w Hm). cbn [snd manifest].
    rewrite update_version_file_absent by reflexivity.
    cbn [fst snd manifest]. split; [reflexivity|]. split; [reflexivity|].
    discriminate.
Qed.

Lemma update_twice_witness :
  manifest
    (snd ((update_version_file (txt "2.0.0") ;; update_version_file (txt "2.0.0"))
            (ToyGit.world0 (Some (version_line (txt "1.0.0"))) None)))
  = manifest
      (snd (update_version_file (txt "2.0.0")
              (ToyGit.world0 (Some (version_line (txt "1.0.0"))) None))).
Proof.
  assert (Hn : txt "2.0.0" <> []) by discriminate.
  assert (Hq : ~ In dquote (txt "2.0.0")) by (vm_compute; intuition discriminate).
  assert (Hb : ~ In backslash (txt "2.0.0"))
    by (vm_compute; intuition discriminate).
  apply (proj1 (proj2 (update_twice
           (ToyGit.world0 (Some (version_line (txt "1.0.0"))) None) (txt "2.0.0")
           Hn Hq Hb))).
Defined.

(** X11: on a manifest that decodes, and for a new version without
    backslash, [update_version_file] returns normally and writes the text it
    has read (the content with every line end as a line feed) with every
    version entry, from left to right, replaced by the entry of the new
    version and every other character as it was read.  Every entry is
    replaced, not the first alone, and the text written is the only one of
    this description. *)
Theorem update_version_file_replaces_all {G} (w : world G)
    (content new_version : text)
    (Hm : manifest w = Some (Chars content))
    (Hb : ~ In backslash new_version) :
  exists updated,
    update_version_file new_version w =
    (inr tt,
     World (Some (Chars updated)) (environ w) (tool w)
       (stdout w ++
        [Line (txt "Updated version in pyproject.toml to " ++ new_version)])
       (calls w)) /\
    ReplacedAll new_version (universal_newlines content) updated /\
    forall other,
      ReplacedAll new_version (universal_newlines content) other ->
      other = updated.
Proof.
  destruct (update_version_file_literal new_version content w Hm Hb)
    as (u & E & R).
  exists u. split; [exact E|]. split; [exact R|].
  intros other Ho. eapply ScriptFacts.ReplacedAll_unique; eauto.
Qed.

Lemma update_version_file_replaces_all_witness :
  exists updated,
    update_version_file (txt "2.0.0")
      (ToyGit.world0
         (Some (version_line (txt "1.0.0") ++ carriage_return :: newline
                  :: version_line (txt "9.9.9"))) None) =
    (inr tt,
     World (Some (Chars updated)) [] None
       ([] ++ [Line (txt "Updated version in pyproject.toml to " ++ txt "2.0.0")])
       []) /\
    ReplacedAll (txt "2.0.0")
      (universal_newlines
         (version_line (txt "1.0.0") ++ carriage_return :: newline
            :: version_line (txt "9.9.9"))) updated /\
    forall other,
      ReplacedAll (txt "2.0.0")
        (universal_newlines
           (version_line (txt "1.0.0") ++ carriage_return :: newline
              :: version_line (txt "9.9.9"))) other ->
      other = updated.
Proof.
  assert (Hb : ~ In backslash (txt "2.0.0"))
    by (vm_compute; intuition discriminate).
  apply (update_version_file_replaces_all
           (ToyGit.world0
              (Some (version_line (txt "1.0.0") ++ carriage_return :: newline
                       :: version_line (txt "9.9.9"))) None)
           (version_line (txt "1.0.0") ++ carriage_return :: newline
              :: version_line (txt "9.9.9"))
           (txt "2.0.0") eq_refl Hb).
Defined.

(** ** Bumping *)

Lemma bumped_greater (t : N * N * N) (kind : text) :
  bump_kind kind -> version_lt t (bumped t kind).
Proof.
  destruct t as [[a b] c]. unfold bumped, version_lt.
  intros [->|[->| ->]]; eval_kinds; lia.
Qed.

(** X3: a bump of a version that parses stands for a version greater in
    the order major, minor, patch.  When the incremented number has no more
    than 4300 digits, the bump returns the text of that version, which
    parses to it again; when it has more, the bump raises the ValueError of
    the conversion. *)
Theorem bump_version_increases (v kind : text) (t : N * N * N)
    (H : parse_version v = inr t) (K : bump_kind kind) :
  version_lt t (bumped t kind) /\
  (fits (bumped_number t kind) ->
   bump_version v kind = inr (format_version (bumped t kind)) /\
   parse_version (format_version (bumped t kind)) = inr (bumped t kind)) /\
  (~ fits (bumped_number t kind) ->
   bump_version v kind = inl (ValueError (Py.limit_head ++ Py.limit_tail))).
Proof.
  split; [exact (bumped_greater t kind K)|]. split.
  - intros F. split; [exact (bump_version_fits _ _ _ H K F)|].
    exact (parse_bumped _ _ _ H F).
  - intros F. exact (bump_version_beyond _ _ _ H K F).
Qed.

Lemma bump_version_increases_witness :
  version_lt (1%N, 9%N, 9%N) (1%N, 10%N, 0%N) /\
  bump_version (txt "1.9.9-rc1") (txt "minor") = inr (txt "1.10.0") /\
  parse_version (txt "1.10.0") = inr (1%N, 10%N, 0%N).
Proof.
  assert (P : parse_version (txt "1.9.9-rc1") = inr (1%N, 9%N, 9%N))
    by (vm_compute; reflexivity).
  assert (K : bump_kind (txt "minor")) by (right; left; reflexivity).
  assert (F : fits (bumped_number (1%N, 9%N, 9%N) (txt "minor")))
    by (apply fits_leb; vm_compute; reflexivity).
  destruct (bump_version_increases (txt "1.9.9-rc1") (txt "minor")
              (1%N, 9%N, 9%N) P K) as (L & R & _).
  split; [exact L | exact (R F)].
Defined.

(** What a bump that has returned tells. *)
Lemma bump_version_returned (cur kind new : text) :
  bump_version cur kind = inr new ->
  bump_kind kind /\ exists t, new = format_version t.
Proof.
  intros B. destruct (parse_version cur) as [e|t] eqn:P.
  - unfold bump_version in B. rewrite P in B. discriminate.
  - destruct (bump_version_inr _ _ _ _ P B) as (K & _ & ->). eauto.
Qed.

Lemma main_bump_eq {G} `{Subprocess G} (a : args) (w : world G)
    (kind new : text) :
  a_action a = Bump -> a_type a = Some kind ->
  manifest w <> Some Undecodable ->
  bump_version (manifest_version w) kind = inr new ->
  main a w =
  (_ <- update_version_file new ;;
   print (Line (txt "Bumped version from " ++ manifest_version w
                  ++ txt " to " ++ new))) w.
Proof.
  intros Act Ty R E. unfold main. rewrite Act, Ty.
  destruct (bump_version_returned _ _ _ E) as (K & _).
  assert (Tr : Py.truthy kind = true) by (destruct K as [->|[->| ->]]; reflexivity).
  rewrite Tr. unfold bind at 1. rewrite (get_current_version_mv w R).
  unfold bind at 1. unfold lift. rewrite E. reflexivity.
Qed.

(** X4: the bump action on a manifest whose text holds a version entry, when
    the bump of the value of the first entry returns: [main] returns; it has
    printed the line of the update and the line Bumped version from (old)
    to (new); and [get_current_version] now returns the new version. *)
Theorem main_bump_then_read {G} `{Subprocess G} (a : args) (w : world G)
    (kind content pre cur tl new : text)
    (Act : a_action a = Bump) (Ty : a_type a = Some kind)
    (Hm : manifest w = Some (Chars content))
    (Hf : first_version_entry (universal_newlines content) pre cur tl)
    (Hb : bump_version cur kind = inr new) :
  fst (main a w) = inr tt /\
  stdout (snd (main a w)) =
    stdout w ++
    [Line (txt "Updated version in pyproject.toml to " ++ new);
     Line (txt "Bumped version from " ++ cur ++ txt " to " ++ new)] /\
  get_current_version (snd (main a w)) = (inr new, snd (main a w)).
Proof.
  assert (R : manifest w <> Some Undecodable) by (rewrite Hm; discriminate).
  assert (Mv : manifest_version w = cur).
  { unfold manifest_version. rewrite get_current_version_eq, Hm. cbn [fst].
    apply PatternFacts.find_entry_Some in Hf. rewrite Hf. reflexivity. }
  destruct (bump_version_returned _ _ _ Hb) as (K & t' & ->).
  rewrite <- Mv in Hb. rewrite (main_bump_eq a w kind _ Act Ty R Hb), Mv.
  destruct (update_version_file_literal (format_version t') content w Hm
              (format_version_plain t')) as (u & U & Ra).
  unfold bind, print. rewrite U. cbn [fst snd stdout manifest].
  split; [reflexivity|]. split; [rewrite <- app_assoc; reflexivity|].
  eapply read_written;
    [exact Hf | apply format_version_nonempty | apply format_version_no_dquote
     | apply format_version_no_cr | exact Ra | reflexivity].
Qed.

Lemma main_bump_then_read_witness :
  fst (main (Args Bump (Some (txt "minor")) None None false)
            (ToyGit.world0 (Some (version_line (txt "1.2.3"))) None)) = inr tt /\
  stdout (snd (main (Args Bump (Some (txt "minor")) None None false)
                 (ToyGit.world0 (Some (version_line (txt "1.2.3"))) None))) =
    [] ++
    [Line (txt "Updated version in pyproject.toml to " ++ txt "1.3.0");
     Line (txt "Bumped version from " ++ txt "1.2.3" ++ txt " to " ++ txt "1.3.0")] /\
  get_current_version
    (snd (main (Args Bump (Some (txt "minor")) None None false)
            (ToyGit.world0 (Some (version_line (txt "1.2.3"))) None)))
  = (inr (txt "1.3.0"),
     snd (main (Args Bump (Some (txt "minor")) None None false)
            (ToyGit.world0 (Some (version_line (txt "1.2.3"))) None))).
Proof.
  assert (F : first_version_entry
                (universal_newlines (version_line (txt "1.2.3"))) []
                (txt "1.2.3") [])
    by (apply PatternFacts.find_entry_Some; vm_compute; reflexivity).
  assert (B : bump_version (txt "1.2.3") (txt "minor") = inr (txt "1.3.0"))
    by (vm_compute; reflexivity).
  apply (main_bump_then_read (Args Bump (Some (txt "minor")) None None false)
           (ToyGit.world0 (Some (version_line (txt "1.2.3"))) None)
           (txt "minor") (version_line (txt "1.2.3")) [] (txt "1.2.3") []
           (txt "1.3.0") eq_refl eq_refl eq_refl F B).
Defined.

Lemma bump_default (kind : text) :
  bump_kind kind ->
  exists t, bump_version (txt "0.1.0") kind = inr (format_version t).
Proof.
  intros K.
  assert (P : parse_version (txt "0.1.0") = inr (0%N, 1%N, 0%N))
    by (vm_compute; reflexivity).
  eexists. apply (bump_version_fits _ _ _ P K).
  destruct K as [->|[->| ->]]; apply fits_leb; vm_compute; reflexivity.
Qed.

(** X5: the bump action when there is no manifest, or a manifest whose text
    holds no version entry: [main] returns and reports a bump from 0.1.0,
    but nothing of the bump is kept.  A manifest that is missing stays
    missing; one without entry is written back as it was read, with every
    line end as a line feed; and [get_current_version] still returns
    0.1.0. *)
Theorem main_bump_not_kept {G} `{Subprocess G} (a : args) (w : world G)
    (kind : text)
    (Act : a_action a = Bump) (Ty : a_type a = Some kind) (K : bump_kind kind)
    (Hm : manifest w = None \/
          exists content, manifest w = Some (Chars content) /\
                          no_version_entry (universal_newlines content)) :
  exists new,
    bump_version (txt "0.1.0") kind = inr new /\
    fst (main a w) = inr tt /\
    manifest (snd (main a w))
    = match manifest w with
      | Some (Chars content) => Some (Chars (universal_newlines content))
      | other => other
      end /\
    In (Line (txt "Bumped version from " ++ txt "0.1.0" ++ txt " to " ++ new))
       (stdout (snd (main a w))) /\
    get_current_version (snd (main a w)) = (inr (txt "0.1.0"), snd (main a w)).
Proof.
  assert (R : manifest w <> Some Undecodable)
    by (destruct Hm as [->|(content & -> & _)]; discriminate).
  assert (Mv : manifest_version w = txt "0.1.0").
  { unfold manifest_version. rewrite get_current_version_eq.
    destruct Hm as [->|(content & -> & N)]; [reflexivity|]. cbn [fst].
    apply PatternFacts.find_entry_None in N. rewrite N. reflexivity. }
  destruct (bump_default kind K) as (t' & E).
  exists (format_version t'). split; [exact E|].
  rewrite <- Mv in E. rewrite (main_bump_eq a w kind _ Act Ty R E), Mv.
  unfold bind, print. destruct Hm as [Hm|(content & Hm & N)].
  - rewrite (update_version_file_absent _ w Hm). cbn [fst snd stdout manifest].
    rewrite Hm.
    split; [reflexivity|]. split; [reflexivity|].
    split; [apply in_or_app; right; left; reflexivity|].
    rewrite get_current_version_eq. reflexivity.
  - pose proof (no_backslash_compile _
        (version_line_no_backslash _ (format_version_plain t'))) as Ht.
    rewrite (update_version_file_existing _ _ _ _ Hm Ht).
    rewrite PatternFacts.sub_loop_version_no_entry by exact N.
    cbn [fst snd stdout manifest]. rewrite Hm.
    split; [reflexivity|]. split; [reflexivity|].
    split; [apply in_or_app; right; left; reflexivity|].
    rewrite get_current_version_eq. cbn [manifest].
    rewrite NewlineFacts.universal_newlines_idem.
    apply PatternFacts.find_entry_None in N. rewrite N. reflexivity.
Qed.

Lemma main_bump_not_kept_witness :
  exists new,
    bump_version (txt "0.1.0") (txt "patch") = inr new /\
    fst (main (Args Bump (Some (txt "patch")) None None false)
              (ToyGit.world0 (Some (txt "a" ++ [carriage_return])) None))
    = inr tt /\
    manifest (snd (main (Args Bump (Some (txt "patch")) None None false)
                     (ToyGit.world0 (Some (txt "a" ++ [carriage_return])) None)))
    = Some (Chars (universal_newlines (txt "a" ++ [carriage_return]))) /\
    In (Line (txt "Bumped version from " ++ txt "0.1.0" ++ txt " to " ++ new))
       (stdout (snd (main (Args Bump (Some (txt "patch")) None None false)
                       (ToyGit.world0 (Some (txt "a" ++ [carriage_return]))
                          None)))) /\
    get_current_version
      (snd (main (Args Bump (Some (txt "patch")) None None false)
              (ToyGit.world0 (Some (txt "a" ++ [carriage_return])) None)))
    = (inr (txt "0.1.0"),
       snd (main (Args Bump (Some (txt "patch")) None None false)
              (ToyGit.world0 (Some (txt "a" ++ [carriage_return])) None))).
Proof.
  assert (K : bump_kind (txt "patch")) by (right; right; reflexivity).
  assert (N : no_version_entry
                (universal_newlines (txt "a" ++ [carriage_return])))
    by (apply PatternFacts.find_entry_None; vm_compute; reflexivity).
  apply (main_bump_not_kept (Args Bump (Some (txt "patch")) None None false)
           (ToyGit.world0 (Some (txt "a" ++ [carriage_return])) None)
           (txt "patch") eq_refl eq_refl K
           (or_intror (ex_intro _ (txt "a" ++ [carriage_return])
                         (conj eq_refl N)))).
Defined.

(** ** The end of a version text *)

Lemma semver_at_numbers (d1 d2 d3 rest : text) :
  digits d1 -> digits d2 -> digits d3 ->
  match rest with a :: _ => Re.is_digit a = false | [] => True end ->
  semver_at (d1 ++ "."%char :: d2 ++ "."%char :: d3 ++ rest) =
  match semver_tail (length d1 + 1 + length d2 + 1 + length d3) rest with
  | Some e => Some (d1, d2, d3, e)
  | None => None
  end.
Proof.
  intros (N1 & H1) (N2 & H2) (N3 & H3) Hr. unfold semver_at.
  rewrite (span_app Re.is_digit d1) by (auto; reflexivity).
  destruct d1 as [|a1 d1]; [contradiction|]. rewrite Ascii.eqb_refl.
  rewrite (span_app Re.is_digit d2) by (auto; reflexivity).
  destruct d2 as [|a2 d2]; [contradiction|]. rewrite Ascii.eqb_refl.
  rewrite (span_app Re.is_digit d3) by auto.
  destruct d3 as [|a3 d3]; [contradiction|]. reflexivity.
Qed.

Lemma semver_tail_two_newlines (p : nat) (sfx : text) :
  semver_suffix sfx -> semver_tail p (sfx ++ [newline; newline]) = None.
Proof.
  intros [->|(t & -> & Ht)]; unfold semver_tail.
  - reflexivity.
  - rewrite <- app_comm_cons, Ascii.eqb_refl.
    rewrite (span_app not_newline t [newline; newline]);
      [|apply SemverFacts.forallb_not_newline; exact Ht | reflexivity].
    destruct t; reflexivity.
Qed.

(** Two texts with the same three numbers are parsed alike. *)
Lemma parse_version_same_numbers (s s' d1 d2 d3 : text) :
  semver_text s d1 d2 d3 -> semver_text s' d1 d2 d3 ->
  parse_version s' = parse_version s.
Proof.
  intros S S'. rewrite !parse_version_eq.
  destruct (SemverFacts.semver_at_complete _ _ _ _ S) as (e & ->).
  destruct (SemverFacts.semver_at_complete _ _ _ _ S') as (e' & ->).
  reflexivity.
Qed.

(** X6: [parse_version] reads a version text that is followed by one
    newline as it reads the text itself, and rejects it when two newlines
    follow. *)
Theorem parse_version_final_newline (s d1 d2 d3 : text)
    (H : semver_text s d1 d2 d3) (Hn : ~ In newline s) :
  parse_version (s ++ [newline]) = parse_version s /\
  parse_version (s ++ [newline; newline])
  = inl (ValueError (txt "Invalid version format: " ++ s ++ [newline; newline])).
Proof.
  pose proof H as (sfx & nl & E & D1 & D2 & D3 & Sx & Nl).
  assert (nl = []) as ->.
  { destruct Nl as [->| ->]; [reflexivity|]. exfalso. apply Hn. rewrite E.
    apply in_or_app; right. right. apply in_or_app; right. right.
    apply in_or_app; right. apply in_or_app; right. left. reflexivity. }
  rewrite app_nil_r in E. split.
  - apply (parse_version_same_numbers s _ d1 d2 d3 H).
    exists sfx, [newline]. subst s.
    repeat (rewrite <- app_assoc || rewrite <- app_comm_cons). auto 10.
  - rewrite parse_version_eq. subst s.
    repeat (rewrite <- app_assoc || rewrite <- app_comm_cons).
    rewrite semver_at_numbers; auto.
    + rewrite semver_tail_two_newlines by exact Sx. reflexivity.
    + destruct Sx as [->|(t & -> & _)]; reflexivity.
Qed.

Lemma parse_version_final_newline_witness :
  parse_version (txt "1.2.3-rc1" ++ [newline]) = parse_version (txt "1.2.3-rc1") /\
  parse_version (txt "1.2.3-rc1" ++ [newline; newline])
  = inl (ValueError (txt "Invalid version format: " ++ txt "1.2.3-rc1"
                       ++ [newline; newline])).
Proof.
  assert (S : semver_text (txt "1.2.3-rc1") (txt "1") (txt "2") (txt "3")).
  { exists (txt "-rc1"), []. split; [reflexivity|].
    split; [split; [discriminate | reflexivity]|].
    split; [split; [discriminate | reflexivity]|].
    split; [split; [discriminate | reflexivity]|].
    split; [|left; reflexivity].
    right. exists (txt "rc1"). split; [reflexivity|].
    vm_compute. intuition discriminate. }
  assert (N : ~ In newline (txt "1.2.3-rc1"))
    by (vm_compute; intuition discriminate).
  apply (parse_version_final_newline (txt "1.2.3-rc1") (txt "1") (txt "2")
           (txt "3") S N).
Defined.

(** ** The commands of the tag action *)

Lemma forallb_isspace (s : text) :
  forallb Py.isspace s = negb (existsb (fun c => negb (Py.isspace c)) s).
Proof.
  induction s as [|c s IH]; [reflexivity|].
  cbn [forallb existsb]. rewrite IH. destruct (Py.isspace c); reflexivity.
Qed.

Lemma blank_listing (out : text) :
  Py.truthy (Py.strip out) = negb (forallb Py.isspace out).
Proof. rewrite TagFacts.truthy_strip, forallb_isspace, negb_involutive. reflexivity. Qed.

(** X7: [create_git_tag] first lists the tag.  It runs the creation, with
    the given message or the default one, exactly when the listing has
    returned zero and printed nothing but white space; it then returns when
    the creation has returned zero and leaves with [sys.exit(1)] otherwise.
    In the other cases the listing is the only command: the function
    returns when the listing has returned zero (the tag is there) and
    leaves with [sys.exit(1)] when it has not. *)
Theorem create_git_tag_commands {G} `{Subprocess G} (version : text)
    (message : option text) (w : world G) (rc : Z) (out : text) (g1 : G)
    (L : run (tag_list_cmd (txt "v" ++ version)) (tool w) = ((rc, out), g1)) :
  let name := txt "v" ++ version in
  let msg := Py.or_default message (txt "Release version " ++ version) in
  let r := fst (create_git_tag version message w) in
  let w' := snd (create_git_tag version message w) in
  (rc = 0%Z /\ forallb Py.isspace out = true ->
   exists rc2 out2 g2,
     run (tag_create_cmd name msg) g1 = ((rc2, out2), g2) /\
     calls w' = calls w ++ [(tag_list_cmd name, 0%Z); (tag_create_cmd name msg, rc2)] /\
     tool w' = g2 /\
     r = if (rc2 =? 0)%Z then inr tt else inl (SystemExit 1)) /\
  (rc <> 0%Z \/ forallb Py.isspace out = false ->
   calls w' = calls w ++ [(tag_list_cmd name, rc)] /\
   tool w' = g1 /\
   r = if (rc =? 0)%Z then inr tt else inl (SystemExit 1)).
Proof.
  cbv zeta. rewrite TagFacts.create_git_tag_eq. cbv zeta. rewrite L.
  rewrite blank_listing. split.
  - intros [-> B]. rewrite B. cbn [Z.eqb negb].
    destruct (run (tag_create_cmd _ _) g1) as [[rc2 out2] g2].
    exists rc2, out2, g2. split; [reflexivity|].
    destruct (rc2 =? 0)%Z; cbn [fst snd calls tool];
      rewrite <- app_assoc; auto.
  - intros [N|B].
    + destruct (Z.eqb_spec rc 0) as [->|_]; [contradiction|].
      cbn [fst snd calls tool]. auto.
    + rewrite B. cbn [negb]. destruct (rc =? 0)%Z; cbn [fst snd calls tool]; auto.
Qed.

Lemma create_git_tag_commands_witness :
  calls (snd (create_git_tag (txt "1.0.0") (Some [])
                (ToyGit.world0 None (Some []))))
  = [] ++ [(tag_list_cmd (txt "v1.0.0"), 0%Z);
           (tag_create_cmd (txt "v1.0.0") (txt "Release version 1.0.0"), 0%Z)].
Proof.
  assert (L : run (tag_list_cmd (txt "v" ++ txt "1.0.0"))
                 (tool (ToyGit.world0 None (Some [])))
               = ((0%Z, []), Some [])) by (vm_compute; reflexivity).
  destruct (proj1 (create_git_tag_commands (txt "1.0.0") (Some [])
                     (ToyGit.world0 None (Some [])) 0%Z [] (Some []) L)
              (conj eq_refl eq_refl))
    as (rc2 & out2 & g2 & R & C & _).
  vm_compute in R. inversion R; subst. exact C.
Defined.

(** ** What the script leaves as it is

    A relation [P] between the world before and the world after is kept by
    a computation when it holds between every world and the world the
    computation leaves.  A reflexive and transitive relation that every
    primitive of a function keeps is kept by the function. *)

Section Frames.
Context {G : Type} `{Subprocess G}.
Variable P : world G -> world G -> Prop.
Hypothesis P_refl : forall w, P w w.
Hypothesis P_trans : forall a b c, P a b -> P b c -> P a c.

Lemma frame_bind {A B} (c : M G A) (k : A -> M G B) :
  (forall w, P w (snd (c w))) -> (forall x w, P w (snd (k x w))) ->
  forall w, P w (snd (bind c k w)).
Proof.
  intros Hc Hk w. unfold bind. specialize (Hc w).
  destruct (c w) as [[e|x] w1]; cbn [snd] in *; eauto.
Qed.

Lemma frame_try {A} (body : M G A) (handler : list text -> Z -> M G A) :
  (forall w, P w (snd (body w))) ->
  (forall cmd rc w, P w (snd (handler cmd rc w))) ->
  forall w, P w (snd (try_except_CalledProcessError body handler w)).
Proof.
  intros Hb Hh w. unfold try_except_CalledProcessError. specialize (Hb w).
  destruct (body w) as [[[]|x] w1]; cbn [snd] in *; eauto.
Qed.

Lemma frame_ret {A} (x : A) w : P w (snd (ret x w)).
Proof. apply P_refl. Qed.

Lemma frame_raise {A} (e : exn) w : P w (snd (@raise G A e w)).
Proof. apply P_refl. Qed.

Lemma frame_lift {A} (r : exn + A) w : P w (snd (lift r w)).
Proof. apply P_refl. Qed.

Lemma frame_get_current_version w : P w (snd (get_current_version w)).
Proof.
  unfold get_current_version. apply frame_bind; [intros; apply P_refl|].
  intros e w1. destruct (negb e); [apply frame_ret|].
  apply frame_bind.
  - intros w2. unfold read_file.
    destruct (manifest w2) as [[content|]|]; apply P_refl.
  - intros content w2.
    destruct (Re.re_search version_capture_re content); apply frame_ret.
Qed.

Lemma frame_get_docker_images_info version w :
  P w (snd (get_docker_images_info version w)).
Proof. apply P_refl. Qed.

Hypothesis P_print : forall l w, P w (snd (print l w)).

Section Writing.
Hypothesis P_write : forall content w, P w (snd (write_file content w)).

Lemma frame_update_version_file new w :
  P w (snd (update_version_file new w)).
Proof.
  unfold update_version_file. apply frame_bind; [intros; apply P_refl|].
  intros e w1. destruct (negb e); [apply P_print|].
  apply frame_bind.
  { intros w2. unfold read_file.
    destruct (manifest w2) as [[content|]|]; apply P_refl. }
  intros content w2. apply frame_bind.
  { intros w3. destruct (Re.re_sub _ _ _); [apply frame_ret | apply frame_raise]. }
  intros updated w3. apply frame_bind; [apply P_write|].
  intros _ w4. apply P_print.
Qed.

Lemma frame_main_no_command (a : args) w :
  a_action a <> Tag -> P w (snd (main a w)).
Proof.
  intros NT. unfold main. destruct (a_action a); [| |contradiction|].
  - apply frame_bind; [apply frame_get_current_version|]. intros; apply P_print.
  - assert (X : forall w0,
      P w0 (snd ((print (Line (txt "Error: --type is required for bump action")) ;;
                  @raise G unit (SystemExit 1)) w0))).
    { apply frame_bind; [apply P_print | intros; apply frame_raise]. }
    destruct (a_type a) as [t|]; [destruct (Py.truthy t)|]; try apply X.
    apply frame_bind; [apply frame_get_current_version|]. intros cur w1.
    apply frame_bind; [intros; apply frame_lift|]. intros new w2.
    apply frame_bind; [apply frame_update_version_file|]. intros; apply P_print.
  - apply frame_bind; [apply frame_get_current_version|]. intros cur w1.
    apply frame_bind; [apply frame_get_docker_images_info|]. intros info w2.
    apply frame_bind; [apply P_print|]. intros; apply P_print.
Qed.

End Writing.

Section Running.
Hypothesis P_run : forall cmd w, P w (snd (subprocess_run cmd w)).

Lemma frame_create_git_tag version message w :
  P w (snd (create_git_tag version message w)).
Proof.
  unfold create_git_tag. cbv zeta. apply frame_try.
  - apply frame_bind; [apply P_run|]. intros result w1.
    destruct (Py.truthy (Py.strip (snd result))); [apply P_print|].
    apply frame_bind; [apply P_run | intros; apply P_print].
  - intros cmd rc. apply frame_bind; [apply P_print | intros; apply frame_raise].
Qed.

Lemma frame_push_tag version w : P w (snd (push_tag version w)).
Proof.
  unfold push_tag. cbv zeta. apply frame_try.
  - apply frame_bind; [apply P_run | intros; apply P_print].
  - intros cmd rc. apply frame_bind; [apply P_print | intros; apply frame_raise].
Qed.

Lemma frame_main_no_write (a : args) w :
  a_action a <> Bump -> P w (snd (main a w)).
Proof.
  intros NB. unfold main. destruct (a_action a); [|contradiction| |].
  - apply frame_bind; [apply frame_get_current_version|]. intros; apply P_print.
  - apply frame_bind.
    { intros w0. destruct (Py.truthy_opt (a_version a));
        [apply frame_ret | apply frame_get_current_version]. }
    intros version w1. apply frame_bind; [apply frame_create_git_tag|].
    intros _ w2. destruct (a_push a); [apply frame_push_tag | apply frame_ret].
  - apply frame_bind; [apply frame_get_current_version|]. intros cur w1.
    apply frame_bind; [apply frame_get_docker_images_info|]. intros info w2.
    apply frame_bind; [apply P_print|]. intros; apply P_print.
Qed.

Hypothesis P_write : forall content w, P w (snd (write_file content w)).

Lemma frame_main (a : args) w : P w (snd (main a w)).
Proof.
  destruct (a_action a) eqn:Act;
    try (apply frame_main_no_command; [exact P_write | congruence]);
    apply frame_main_no_write; congruence.
Qed.

End Running.

End Frames.

(** X8: what [main] touches.  It never changes the environment and only
    adds lines to the output.  Only the bump action can change the
    manifest; only the tag action runs commands or changes the state
    behind the external tool. *)
Theorem main_frame {G} `{Subprocess G} (a : args) (w : world G) :
  environ (snd (main a w)) = environ w /\
  (exists l, stdout (snd (main a w)) = stdout w ++ l) /\
  (a_action a <> Bump -> manifest (snd (main a w)) = manifest w) /\
  (a_action a <> Tag ->
   tool (snd (main a w)) = tool w /\ calls (snd (main a w)) = calls w).
Proof.
  split; [|split; [|split]].
  - apply (frame_main (fun w w' => environ w' = environ w)); try reflexivity.
    + intros; congruence.
    + intros cmd w0. unfold subprocess_run.
      destruct (run cmd (tool w0)) as [[rc out] g]. destruct (rc =? 0)%Z; reflexivity.
  - apply (frame_main (fun w w' => exists l, stdout w' = stdout w ++ l)).
    + intros w0. exists []. rewrite app_nil_r. reflexivity.
    + intros x y z [l1 E1] [l2 E2]. exists (l1 ++ l2).
      rewrite E2, E1, app_assoc. reflexivity.
    + intros l w0. exists [l]. reflexivity.
    + intros cmd w0. exists []. unfold subprocess_run.
      destruct (run cmd (tool w0)) as [[rc out] g].
      destruct (rc =? 0)%Z; cbn [snd stdout]; rewrite app_nil_r; reflexivity.
    + intros content w0. exists []. cbn [write_file snd stdout].
      rewrite app_nil_r. reflexivity.
  - intros NB.
    apply (frame_main_no_write (fun w w' => manifest w' = manifest w));
      try reflexivity; auto.
    + intros; congruence.
    + intros cmd w0. unfold subprocess_run.
      destruct (run cmd (tool w0)) as [[rc out] g]. destruct (rc =? 0)%Z; reflexivity.
  - intros NT. split.
    + apply (frame_main_no_command (fun w w' => tool w' = tool w));
        try reflexivity; auto.
      intros; congruence.
    + apply (frame_main_no_command (fun w w' => calls w' = calls w));
        try reflexivity; auto.
      intros; congruence.
Qed.

Lemma main_frame_witness :
  manifest (snd (main (Args Tag None (Some (txt "1.0.0")) None true)
                   (ToyGit.world0 (Some (version_line (txt "0.9.0"))) (Some []))))
  = Some (Chars (version_line (txt "0.9.0"))) /\
  calls (snd (main (Args Bump (Some (txt "major")) None None false)
                (ToyGit.world0 (Some (version_line (txt "0.9.0"))) (Some []))))
  = [].
Proof.
  split.
  - apply (proj1 (proj2 (proj2 (main_frame
             (Args Tag None (Some (txt "1.0.0")) None true)
             (ToyGit.world0 (Some (version_line (txt "0.9.0"))) (Some [])))))).
    discriminate.
  - apply (proj2 (proj2 (proj2 (main_frame
             (Args Bump (Some (txt "major")) None None false)
             (ToyGit.world0 (Some (version_line (txt "0.9.0"))) (Some [])))))).
    discriminate.
Defined.

(** ** The push of the tag action *)

Lemma main_tag_eq {G} `{Subprocess G} (a : args) (w : world G) :
  a_action a = Tag ->
  Py.truthy_opt (a_version a) = true \/ manifest w <> Some Undecodable ->
  main a w =
  (create_git_tag
     (if Py.truthy_opt (a_version a)
      then match a_version a with Some v => v | None => [] end
      else manifest_version w) (a_message a) ;;
   if a_push a
   then push_tag (if Py.truthy_opt (a_version a)
                  then match a_version a with Some v => v | None => [] end
                  else manifest_version w)
   else ret tt) w.
Proof.
  intros Act R. unfold main. rewrite Act. unfold bind at 1.
  destruct (Py.truthy_opt (a_version a)).
  - reflexivity.
  - destruct R as [D|R]; [discriminate|].
    rewrite (get_current_version_mv w R). reflexivity.
Qed.

Lemma main_tag_unreadable {G} `{Subprocess G} (a : args) (w : world G) :
  a_action a = Tag ->
  ~ (Py.truthy_opt (a_version a) = true \/ manifest w <> Some Undecodable) ->
  main a w = (inl UnicodeDecodeError, w).
Proof.
  intros Act N. unfold main. rewrite Act. unfold bind at 1.
  destruct (Py.truthy_opt (a_version a)); [exfalso; apply N; left; reflexivity|].
  destruct (readable_dec w) as [U|R]; [|exfalso; apply N; right; exact R].
  rewrite (get_current_version_undecodable w U). reflexivity.
Qed.

Lemma create_git_tag_no_push {G} `{Subprocess G} version message (w : world G) :
  exists new,
    calls (snd (create_git_tag version message w)) = calls w ++ new /\
    forall cmd rc, In (cmd, rc) new -> is_tag_push cmd = false.
Proof.
  rewrite TagFacts.create_git_tag_eq. cbv zeta.
  destruct (run (tag_list_cmd _) (tool w)) as [[rc out] g1].
  destruct (rc =? 0)%Z; [destruct (Py.truthy (Py.strip out));
    [|destruct (run _ g1) as [[rc2 out2] g2]; destruct (rc2 =? 0)%Z]|];
    cbn [snd calls]; rewrite <- ?app_assoc; eexists; (split; [reflexivity|]);
    intros cmd rc0 Hin; cbn [In app] in Hin;
    repeat (destruct Hin as [Hin|Hin]; [inversion Hin; reflexivity|]);
    contradiction.
Qed.

(** X9: the tag action pushes only after [create_git_tag] has returned.
    The version of the tag is known when --version gives one that is not
    empty, or when the manifest can be read.  Then, with --push and once
    [create_git_tag] has returned (the tag was listed, or its creation has
    succeeded), the push of the tag is the one command that follows and
    [main] ends as the push ends: it returns when the push has returned
    zero and leaves with [sys.exit(1)] otherwise.  Without --push, or when
    [create_git_tag] has left with [sys.exit], [main] ends as
    [create_git_tag] has ended and has run no push.  When the version is
    to be read from a manifest that does not decode, [main] ends with the
    UnicodeDecodeError before any command. *)
Theorem main_tag_push {G} `{Subprocess G} (a : args) (w : world G)
    (Act : a_action a = Tag) :
  let version :=
    if Py.truthy_opt (a_version a)
    then match a_version a with Some v => v | None => [] end
    else manifest_version w in
  let c := create_git_tag version (a_message a) w in
  let known :=
    Py.truthy_opt (a_version a) = true \/ manifest w <> Some Undecodable in
  (known -> a_push a = true -> fst c = inr tt ->
   exists rc,
     calls (snd (main a w))
     = calls (snd c) ++ [(tag_push_cmd (txt "v" ++ version), rc)] /\
     fst (main a w) = if (rc =? 0)%Z then inr tt else inl (SystemExit 1)) /\
  (known -> a_push a = false \/ fst c <> inr tt ->
   main a w = c /\
   exists new,
     calls (snd (main a w)) = calls w ++ new /\
     forall cmd rc, In (cmd, rc) new -> is_tag_push cmd = false) /\
  (~ known -> main a w = (inl UnicodeDecodeError, w)).
Proof.
  cbv zeta. split; [|split]; [| |apply main_tag_unreadable; exact Act];
    intros Kn; rewrite (main_tag_eq a w Act Kn);
    set (version := if Py.truthy_opt (a_version a)
                    then match a_version a with Some v => v | None => [] end
                    else manifest_version w);
    pose proof (create_git_tag_no_push version (a_message a) w) as NP;
    unfold bind;
    destruct (create_git_tag version (a_message a) w) as [[e|[]] w1];
    cbn [fst snd] in *.
  - intros _ D; discriminate.
  - intros -> _. rewrite TagFacts.push_tag_eq. cbv zeta.
    destruct (run (tag_push_cmd _) (tool w1)) as [[rc out] g1].
    exists rc. destruct (rc =? 0)%Z; cbn [fst snd calls]; auto.
  - intros _. split; [reflexivity | exact NP].
  - intros [-> | D]; [|congruence]. split; [reflexivity | exact NP].
Qed.

Lemma main_tag_push_witness :
  exists rc,
    calls (snd (main (Args Tag None (Some (txt "9.9.9")) None true)
                  (ToyGit.world0 None (Some [txt "v9.9.9"]))))
    = calls (snd (create_git_tag (txt "9.9.9") None
                    (ToyGit.world0 None (Some [txt "v9.9.9"]))))
      ++ [(tag_push_cmd (txt "v" ++ txt "9.9.9"), rc)] /\
    fst (main (Args Tag None (Some (txt "9.9.9")) None true)
           (ToyGit.world0 None (Some [txt "v9.9.9"])))
    = if (rc =? 0)%Z then inr tt else inl (SystemExit 1).
Proof.
  apply (proj1 (main_tag_push (Args Tag None (Some (txt "9.9.9")) None true)
                  (ToyGit.world0 None (Some [txt "v9.9.9"])) eq_refl));
    [left; reflexivity | reflexivity | reflexivity].
Defined.

(** X10: an empty --version and an empty --message count as absent: the
    tag action then takes the version of the manifest and the default
    message. *)
Theorem main_empty_options {G} `{Subprocess G} (act : action)
    (ty ver msg : option text) (push : bool) (w : world G) :
  main (Args act ty (Some []) msg push) w = main (Args act ty None msg push) w /\
  main (Args act ty ver (Some []) push) w = main (Args act ty ver None push) w.
Proof.
  split; unfold main; destruct act; reflexivity.
Qed.
